(** * F1 race replay: the replay engine of [src/arcade_replay.py]

    A shallow embedding of the replay window ([F1ReplayWindow]) and of
    the track builder ([build_track_from_example_lap]), with the
    properties of the playback controller, the viewport transform, the
    HUD and the leaderboard.

    Numbers.  Frame indices and lap numbers are Python [int]s: [Z].
    Python [float]s are modelled by the exact numbers they stand for,
    rounding left aside: rationals ([Q]) wherever the code only adds,
    multiplies, divides and compares, so that every definition
    computes; reals ([R]) in the track builder, which takes square
    roots. *)

From Stdlib Require Import ZArith QArith Qround Qminmax Qabs Lia Lqa List Bool.
From Stdlib Require Import String Ascii DecimalString.
From Stdlib Require Import Permutation Sorted.
From Stdlib Require Import Reals Lra.
Import ListNotations.

(** ** Results of fallible code *)

(** The two exceptions the engine can meet. *)
Inductive Exn := ValueError | ZeroDivisionError.

Inductive Res (A : Type) :=
| Ok (a : A)
| Raise (e : Exn).
Arguments Ok {A} a.
Arguments Raise {A} e.

Definition bind {A B : Type} (r : Res A) (k : A -> Res B) : Res B :=
  match r with
  | Ok a => k a
  | Raise e => Raise e
  end.

Declare Scope res_scope.
Delimit Scope res_scope with res.
Notation "'let*' x ':=' r 'in' k" := (bind r (fun x => k))
  (at level 10, x name, r at level 100, k at level 200) : res_scope.

(** ** Python built-ins on numbers *)

Module Py.

(** [max(a, b)] keeps its first argument unless the second one is
    strictly greater; [min(a, b)] keeps it unless the second one is
    strictly smaller. *)
Definition max (a b : Q) : Q := if Qle_bool b a then a else b.
Definition min (a b : Q) : Q := if Qle_bool a b then a else b.

(** [int(x)] on a float truncates toward zero. *)
Definition int (x : Q) : Z := Z.quot (Qnum x) (Zpos (Qden x)).

(** [a / b]: a zero divisor raises. *)
Definition div (a b : Q) : Res Q :=
  if Qeq_bool b 0 then Raise ZeroDivisionError else Ok (a / b).

(** [a // b] and [a % b] on floats, for a positive literal [b]: the
    exact quotient and remainder.  The float operations give exactly
    these for [0 <= a < 2 ^ 53]; below zero the float remainder of a
    tiny [a] rounds up to [b] itself, which the exact one never does. *)
Definition floordiv (a b : Q) : Q := inject_Z (Qfloor (a / b)).
Definition mod_ (a b : Q) : Q := a - b * inject_Z (Qfloor (a / b)).

(** [str(n)] of an [int]. *)
Definition str (n : Z) : string := NilZero.string_of_int (Z.to_int n).


(** [f"{n:>2}"]: right-aligned in width two, padded with spaces. *)
Definition fmt_r2 (n : Z) : string :=
  if ((0 <=? n) && (n <? 10))%Z%bool then String " " (str n)
  else str n.

End Py.

(** ** Key symbols

    The values of [arcade.key] (the X11 key symbols pyglet uses). *)

Module key.
Definition SPACE : Z := 32.
Definition KEY_1 : Z := 49.
Definition KEY_2 : Z := 50.
Definition KEY_3 : Z := 51.
Definition KEY_4 : Z := 52.
Definition LEFT  : Z := 65361.
Definition UP    : Z := 65362.
Definition RIGHT : Z := 65363.
Definition DOWN  : Z := 65364.
End key.

(** ** Frames *)

(** The per-driver entry of a frame: a dict in which [x] and [y] are
    read with [pos["x"]], the other keys with [pos.get(key, default)],
    hence may be absent. *)
Record DriverPos := mkPos {
  x        : Q;
  y        : Q;
  lap      : option Z;
  dist     : option Q;
  rel_dist : option Q
}.

(** A frame: its timestamp [frame["t"]] and the dict [frame["drivers"]],
    kept as an association list in the dict's iteration order. *)
Record Frame := mkFrame {
  t       : Q;
  drivers : list (string * DriverPos)
}.

Definition Color : Type := (Z * Z * Z)%type.

Module color.
Definition WHITE : Color := (255, 255, 255)%Z.
End color.

(** ** The window state *)

(** The fields of [F1ReplayWindow] that [on_update], [on_key_press],
    [update_scaling], [world_to_screen] and [on_draw] read or write
    ([width] and [height] are those of [arcade.Window]). *)
Record F1ReplayWindow := mkWindow {
  frames              : list Frame;
  n_frames            : Z;
  playback_speed      : Q;
  driver_colors       : list (string * Color);
  frame_index         : Z;
  paused              : bool;
  x_min               : Q;
  x_max               : Q;
  y_min               : Q;
  y_max               : Q;
  world_inner_points  : list (Q * Q);
  world_outer_points  : list (Q * Q);
  screen_inner_points : list (Q * Q);
  screen_outer_points : list (Q * Q);
  world_scale         : Q;
  tx                  : Q;
  ty                  : Q;
  width               : Q;
  height              : Q
}.

Definition set_frame_index (self : F1ReplayWindow) (i : Z) : F1ReplayWindow :=
  mkWindow (frames self) (n_frames self) (playback_speed self)
    (driver_colors self) i (paused self)
    (x_min self) (x_max self) (y_min self) (y_max self)
    (world_inner_points self) (world_outer_points self)
    (screen_inner_points self) (screen_outer_points self)
    (world_scale self) (tx self) (ty self) (width self) (height self).

Definition set_playback_speed (self : F1ReplayWindow) (s : Q) : F1ReplayWindow :=
  mkWindow (frames self) (n_frames self) s
    (driver_colors self) (frame_index self) (paused self)
    (x_min self) (x_max self) (y_min self) (y_max self)
    (world_inner_points self) (world_outer_points self)
    (screen_inner_points self) (screen_outer_points self)
    (world_scale self) (tx self) (ty self) (width self) (height self).

Definition set_paused (self : F1ReplayWindow) (p : bool) : F1ReplayWindow :=
  mkWindow (frames self) (n_frames self) (playback_speed self)
    (driver_colors self) (frame_index self) p
    (x_min self) (x_max self) (y_min self) (y_max self)
    (world_inner_points self) (world_outer_points self)
    (screen_inner_points self) (screen_outer_points self)
    (world_scale self) (tx self) (ty self) (width self) (height self).

(** ** Playback controller *)

(** [on_update]: one tick.  [delta_time] is not read.  The speed is a
    finite float; on an infinite one [int] raises [OverflowError] and
    the index stays where it is. *)
Definition on_update (self : F1ReplayWindow) : F1ReplayWindow :=
  if paused self then self
  else
    let step := Z.max 1 (Py.int (playback_speed self)) in
    let i := (frame_index self + step)%Z in
    if (n_frames self <=? i)%Z
    then set_frame_index self (n_frames self - 1)%Z
    else set_frame_index self i.

(** [on_key_press]: the [elif] chain on [symbol]; [modifiers] is not
    read.  Doubling is exact on floats as long as the double is a
    finite float (see [finite_float]); beyond, the float speed is an
    infinity and stays one. *)
Definition on_key_press (self : F1ReplayWindow) (symbol modifiers : Z)
  : F1ReplayWindow :=
  if (symbol =? key.SPACE)%Z then set_paused self (negb (paused self))
  else if (symbol =? key.RIGHT)%Z then
    set_frame_index self (Z.min (frame_index self + 10) (n_frames self - 1))
  else if (symbol =? key.LEFT)%Z then
    set_frame_index self (Z.max (frame_index self - 10) 0)
  else if (symbol =? key.UP)%Z then
    set_playback_speed self (playback_speed self * 2)
  else if (symbol =? key.DOWN)%Z then
    set_playback_speed self (Py.max (1 # 10) (playback_speed self / 2))
  else if (symbol =? key.KEY_1)%Z then set_playback_speed self (1 # 2)
  else if (symbol =? key.KEY_2)%Z then set_playback_speed self 1
  else if (symbol =? key.KEY_3)%Z then set_playback_speed self 2
  else if (symbol =? key.KEY_4)%Z then set_playback_speed self 4
  else self.

(** [n] ticks in a row. *)
Fixpoint ticks (n : nat) (self : F1ReplayWindow) : F1ReplayWindow :=
  match n with
  | O => self
  | S k => ticks k (on_update self)
  end.

(** The same key pressed [n] times. *)
Fixpoint presses (n : nat) (symbol : Z) (self : F1ReplayWindow)
  : F1ReplayWindow :=
  match n with
  | O => self
  | S k => presses k symbol (on_key_press self symbol 0)
  end.

(** The speed after [n] presses of a key. *)
Definition speed_after (n : nat) (symbol : Z) (self : F1ReplayWindow) : Q :=
  playback_speed (presses n symbol self).

(** The operations of the controller, and a run of them. *)
Inductive ControllerOp :=
| Tick
| KeyPress (symbol modifiers : Z).

Definition step_op (self : F1ReplayWindow) (op : ControllerOp)
  : F1ReplayWindow :=
  match op with
  | Tick => on_update self
  | KeyPress symbol modifiers => on_key_press self symbol modifiers
  end.

Definition run_ops (ops : list ControllerOp) (self : F1ReplayWindow)
  : F1ReplayWindow :=
  fold_left step_op ops self.

(** The spec's [clamp]. *)
Definition clamp (v lo hi : Z) : Z := Z.max lo (Z.min v hi).

(** The frame index lies within the frame store. *)
Definition index_in_range (self : F1ReplayWindow) : Prop :=
  (0 <= frame_index self <= n_frames self - 1)%Z.

(** ** Coordinate transform *)

Definition set_transform (self : F1ReplayWindow) (scale tx' ty' : Q)
  : F1ReplayWindow :=
  mkWindow (frames self) (n_frames self) (playback_speed self)
    (driver_colors self) (frame_index self) (paused self)
    (x_min self) (x_max self) (y_min self) (y_max self)
    (world_inner_points self) (world_outer_points self)
    (screen_inner_points self) (screen_outer_points self)
    scale tx' ty' (width self) (height self).

Definition set_screen_points (self : F1ReplayWindow)
  (inner outer : list (Q * Q)) : F1ReplayWindow :=
  mkWindow (frames self) (n_frames self) (playback_speed self)
    (driver_colors self) (frame_index self) (paused self)
    (x_min self) (x_max self) (y_min self) (y_max self)
    (world_inner_points self) (world_outer_points self)
    inner outer
    (world_scale self) (tx self) (ty self) (width self) (height self).

Definition set_size (self : F1ReplayWindow) (w h : Q) : F1ReplayWindow :=
  mkWindow (frames self) (n_frames self) (playback_speed self)
    (driver_colors self) (frame_index self) (paused self)
    (x_min self) (x_max self) (y_min self) (y_max self)
    (world_inner_points self) (world_outer_points self)
    (screen_inner_points self) (screen_outer_points self)
    (world_scale self) (tx self) (ty self) w h.

(** [world_to_screen]: reads the window, writes nothing. *)
Definition world_to_screen (self : F1ReplayWindow) (x y : Q) : Q * Q :=
  let sx := world_scale self * x + tx self in
  let sy := world_scale self * y + ty self in
  (sx, sy).

Definition padding : Q := 5 # 100.

(** [update_scaling]: the spec's [recompute]. *)
Definition update_scaling (self : F1ReplayWindow) (screen_w screen_h : Q)
  : Res F1ReplayWindow :=
  (let world_w := Py.max 1 (x_max self - x_min self) in
   let world_h := Py.max 1 (y_max self - y_min self) in
   let usable_w := screen_w * (1 - 2 * padding) in
   let usable_h := screen_h * (1 - 2 * padding) in
   let* scale_x := Py.div usable_w world_w in
   let* scale_y := Py.div usable_h world_h in
   let scale := Py.min scale_x scale_y in
   let world_cx := (x_min self + x_max self) / 2 in
   let world_cy := (y_min self + y_max self) / 2 in
   let screen_cx := screen_w / 2 in
   let screen_cy := screen_h / 2 in
   let self := set_transform self scale
                 (screen_cx - scale * world_cx)
                 (screen_cy - scale * world_cy) in
   Ok (set_screen_points self
         (map (fun p => world_to_screen self (fst p) (snd p))
              (world_inner_points self))
         (map (fun p => world_to_screen self (fst p) (snd p))
              (world_outer_points self))))%res.

(** The window [update_scaling] leaves when neither division fails. *)
Definition rescaled (self : F1ReplayWindow) (screen_w screen_h : Q)
  : F1ReplayWindow :=
  let world_w := Py.max 1 (x_max self - x_min self) in
  let world_h := Py.max 1 (y_max self - y_min self) in
  let scale := Py.min (screen_w * (1 - 2 * padding) / world_w)
                      (screen_h * (1 - 2 * padding) / world_h) in
  let s := set_transform self scale
             (screen_w / 2 - scale * ((x_min self + x_max self) / 2))
             (screen_h / 2 - scale * ((y_min self + y_max self) / 2)) in
  set_screen_points s
    (map (fun p => world_to_screen s (fst p) (snd p)) (world_inner_points self))
    (map (fun p => world_to_screen s (fst p) (snd p)) (world_outer_points self)).

(** [on_resize]: arcade records the new size, then the transform is
    recomputed. *)
Definition on_resize (self : F1ReplayWindow) (w h : Q) : Res F1ReplayWindow :=
  update_scaling (set_size self w h) w h.

(** The world bounding-box centre and the screen centre. *)
Definition world_center (self : F1ReplayWindow) : Q * Q :=
  ((x_min self + x_max self) / 2, (y_min self + y_max self) / 2).

(** ** Renderer: leader, race clock and leaderboard *)

(** [dict.get(key, default)]. *)
Definition get {A : Type} (field : option A) (default : A) : A :=
  match field with
  | Some v => v
  | None => default
  end.

(** [driver_colors.get(code, arcade.color.WHITE)]. *)
Fixpoint color_of (colors : list (string * Color)) (code : string) : Color :=
  match colors with
  | [] => color.WHITE
  | (c, col) :: rest => if String.eqb c code then col else color_of rest code
  end.

(** The key of the leader search: [(pos.get("lap", 1), pos.get("dist", 0))].
    Iterating the dict yields each code once, and [frame["drivers"][c]]
    is the entry stored under it. *)
Definition leader_key (pos : DriverPos) : Z * Q :=
  (get (lap pos) 1%Z, get (dist pos) 0).

(** [a > b] on such tuples: decided at the first component that
    differs. *)
Definition key_gtb (a b : Z * Q) : bool :=
  if (fst a =? fst b)%Z then negb (Qle_bool (snd a) (snd b))
  else (fst b <? fst a)%Z.

(** [max(iterable, key=...)]: the running best is replaced only by a
    strictly greater key, so the first of several maxima is kept. *)
Fixpoint max_by (best : string * DriverPos) (rest : list (string * DriverPos))
  : string * DriverPos :=
  match rest with
  | [] => best
  | d :: rest' =>
      if key_gtb (leader_key (snd d)) (leader_key (snd best))
      then max_by d rest'
      else max_by best rest'
  end.

(** [leader_code]: [max] of an empty dict raises [ValueError]. *)
Definition leader (frame : Frame) : Res (string * DriverPos) :=
  match drivers frame with
  | [] => Raise ValueError
  | d :: rest => Ok (max_by d rest)
  end.

Definition leader_code (frame : Frame) : Res string :=
  (let* d := leader frame in Ok (fst d))%res.


(** The race clock. *)
Definition hours (t : Q) : Z := Py.int (Py.floordiv t 3600).
Definition minutes (t : Q) : Z := Py.int (Py.floordiv (Py.mod_ t 3600) 60).
Definition seconds (t : Q) : Z := Py.int (Py.mod_ t 60).



(** A row of [driver_list]. *)
Definition Row : Type := (string * Color * DriverPos)%type.

(** [driver_list]: one [(code, color, pos)] per item of the dict. *)
Definition driver_list (self : F1ReplayWindow) (frame : Frame) : list Row :=
  map (fun d => (fst d, color_of (driver_colors self) (fst d), snd d))
      (drivers frame).

(** The sort key of the leaderboard: [x[2].get("dist", 999)]. *)
Definition board_key (r : Row) : Q := get (dist (snd r)) 999.

(** [list.sort(key=..., reverse=True)] is stable: rows come out by
    descending key, rows of equal key in their order in the list.  That
    fixes the result, computed here by insertion from the right: a row
    goes in front of the first row whose key is not greater than its
    own. *)
Fixpoint insert_row (r : Row) (sorted : list Row) : list Row :=
  match sorted with
  | [] => [r]
  | r' :: rest =>
      if Qle_bool (board_key r') (board_key r) then r :: sorted
      else r' :: insert_row r rest
  end.

Fixpoint sort_by_dist_reverse (l : list Row) : list Row :=
  match l with
  | [] => []
  | r :: rest => insert_row r (sort_by_dist_reverse rest)
  end.

(** An [arcade.draw_text] call. *)
Record DrawText := mkText {
  text      : string;
  start_x   : Q;
  start_y   : Q;
  txt_color : Color;
  font_size : Z
}.

(** [pos.get("rel_dist", 0) == 1]. *)
Definition is_out (pos : DriverPos) : bool := Qeq_bool (get (rel_dist pos) 0) 1.

(** The text of row [i] (counted from 0). *)
Definition row_text (i : nat) (code : string) (pos : DriverPos) : string :=
  let current_pos := (Z.of_nat i + 1)%Z in
  if is_out pos
  then (Py.fmt_r2 current_pos ++ ". " ++ code ++ "   OUT")%string
  else (Py.fmt_r2 current_pos ++ ". " ++ code)%string.

Definition panel_width : Q := 260.
Definition row_height : Q := 22.
Definition panel_height (self : F1ReplayWindow) : Q :=
  Py.min 400 (height self - 80).
Definition panel_x (self : F1ReplayWindow) : Q :=
  width self - panel_width / 2 - 20.
Definition panel_y (self : F1ReplayWindow) : Q :=
  height self - panel_height self / 2 - 20.
Definition row_y (self : F1ReplayWindow) : Q :=
  panel_y self + panel_height self / 2 - 60.

(** The [enumerate] loop over the sorted list, from row [i] on. *)
Fixpoint draw_rows (self : F1ReplayWindow) (i : nat) (l : list Row)
  : list DrawText :=
  match l with
  | [] => []
  | (code, col, pos) :: rest =>
      mkText (row_text i code pos)
             (panel_x self - panel_width / 2 + 12)
             (row_y self - inject_Z (Z.of_nat i) * row_height)
             col 14
      :: draw_rows self (S i) rest
  end.

(** The leaderboard of [on_draw]. *)
Definition leaderboard (self : F1ReplayWindow) (frame : Frame) : list DrawText :=
  draw_rows self 0 (sort_by_dist_reverse (driver_list self frame)).

(** ** Track geometry *)

Module Track.

Local Open Scope R_scope.

(** Element-wise operations on arrays. *)
Fixpoint zip_with {A B C : Type} (f : A -> B -> C) (l : list A) (l' : list B)
  : list C :=
  match l, l' with
  | a :: l, b :: l' => f a b :: zip_with f l l'
  | _, _ => []
  end.

(** A division whose divisor is zero is the failure the guard of the
    builder is there to prevent (numpy would warn and leave an
    infinity or a NaN in the array). *)
Definition div (a b : R) : Res R :=
  if Req_dec_T b 0 then Raise ZeroDivisionError else Ok (a / b).

Fixpoint div_arrays (l l' : list R) : Res (list R) :=
  match l, l' with
  | a :: l, b :: l' =>
      (let* q := div a b in
       let* qs := div_arrays l l' in
       Ok (q :: qs))%res
  | _, _ => Ok []
  end.

(** [np.gradient(f)] with unit spacing: one-sided differences at the
    two ends, central differences inside; fewer than two elements
    raise [ValueError]. *)
Definition gradient_at (f : list R) (i : nat) : R :=
  let n := List.length f in
  if (i =? 0)%nat then nth 1 f 0 - nth 0 f 0
  else if (i =? n - 1)%nat then nth (n - 1) f 0 - nth (n - 2) f 0
  else (nth (i + 1) f 0 - nth (i - 1) f 0) / 2.

Definition gradient (f : list R) : Res (list R) :=
  if (List.length f <? 2)%nat then Raise ValueError
  else Ok (map (gradient_at f) (seq 0 (List.length f))).

(** [arr.min()] and [arr.max()]; an empty array raises [ValueError]. *)
Definition amin (l : list R) : Res R :=
  match l with
  | [] => Raise ValueError
  | a :: l' => Ok (fold_left Rmin l' a)
  end.

Definition amax (l : list R) : Res R :=
  match l with
  | [] => Raise ValueError
  | a :: l' => Ok (fold_left Rmax l' a)
  end.

(** [norm[norm == 0] = 1.0]. *)
Definition guard_norm (n : R) : R := if Req_dec_T n 0 then 1 else n.

Definition default_track_width : R := 200.

Record TrackGeometry := mkTrack {
  plot_x_ref : list R;
  plot_y_ref : list R;
  x_inner    : list R;
  y_inner    : list R;
  x_outer    : list R;
  y_outer    : list R;
  x_min      : R;
  x_max      : R;
  y_min      : R;
  y_max      : R
}.

(** The unit tangents: the gradients divided by their guarded norm. *)
Definition tangents (xs ys : list R) : Res (list R * list R) :=
  (let* dx := gradient xs in
   let* dy := gradient ys in
   let norm := zip_with (fun a b => sqrt (a ^ 2 + b ^ 2)) dx dy in
   let norm := map guard_norm norm in
   let* dx := div_arrays dx norm in
   let* dy := div_arrays dy norm in
   Ok (dx, dy))%res.

(** [build_track_from_example_lap]; the lap is a table with a column
    [X] and a column [Y]: a list of rows. *)
Definition build_track_from_example_lap
  (example_lap : list (R * R)) (track_width : R) : Res TrackGeometry :=
  (let plot_x_ref := map fst example_lap in
   let plot_y_ref := map snd example_lap in
   let* d := tangents plot_x_ref plot_y_ref in
   let dx := fst d in
   let dy := snd d in
   let nx := map Ropp dy in
   let ny := dx in
   let x_outer := zip_with (fun p n => p + n * (track_width / 2)) plot_x_ref nx in
   let y_outer := zip_with (fun p n => p + n * (track_width / 2)) plot_y_ref ny in
   let x_inner := zip_with (fun p n => p - n * (track_width / 2)) plot_x_ref nx in
   let y_inner := zip_with (fun p n => p - n * (track_width / 2)) plot_y_ref ny in
   let* xr := amin plot_x_ref in
   let* xi := amin x_inner in
   let* xo := amin x_outer in
   let x_min := Rmin (Rmin xr xi) xo in
   let* xr := amax plot_x_ref in
   let* xi := amax x_inner in
   let* xo := amax x_outer in
   let x_max := Rmax (Rmax xr xi) xo in
   let* yr := amin plot_y_ref in
   let* yi := amin y_inner in
   let* yo := amin y_outer in
   let y_min := Rmin (Rmin yr yi) yo in
   let* yr := amax plot_y_ref in
   let* yi := amax y_inner in
   let* yo := amax y_outer in
   let y_max := Rmax (Rmax yr yi) yo in
   Ok (mkTrack plot_x_ref plot_y_ref x_inner y_inner x_outer y_outer
         x_min x_max y_min y_max))%res.

(** [np.linspace(0, 1, num)]. *)
Definition linspace01 (num : nat) : list R :=
  match num with
  | O => []
  | S O => [0]
  | _ => map (fun i => INR i / INR (num - 1)) (seq 0 num)
  end.

(** [np.interp] at one abscissa, over the sample points from
    [(x0, f0)] on: linear inside a segment, the last ordinate beyond
    the last point. *)
Fixpoint interp_from (x x0 f0 : R) (rest : list (R * R)) : R :=
  match rest with
  | [] => f0
  | (x1, f1) :: rest' =>
      if Rlt_dec x x1 then f0 + (x - x0) * ((f1 - f0) / (x1 - x0))
      else interp_from x x1 f1 rest'
  end.

(** [np.interp(xs, xp, fp)]: the first ordinate before the first
    point; no sample point, or ordinates of another length, raise
    [ValueError]. *)
Definition interp (xs xp fp : list R) : Res (list R) :=
  if negb (List.length xp =? List.length fp)%nat then Raise ValueError
  else
    match combine xp fp with
    | [] => Raise ValueError
    | (x0, f0) :: rest =>
        Ok (map (fun x => if Rle_dec x x0 then f0
                          else interp_from x x0 f0 rest) xs)
    end.

Definition default_interp_points : nat := 2000.

(** [_interpolate_points]. *)
Definition _interpolate_points (xs ys : list R) (interp_points : nat)
  : Res (list (R * R)) :=
  (let t_old := linspace01 (List.length xs) in
   let t_new := linspace01 interp_points in
   let* xs_i := interp t_new t_old xs in
   let* ys_i := interp t_new t_old ys in
   Ok (combine xs_i ys_i))%res.

(** The boundaries the window keeps: lines 81 to 85 of [__init__]. *)
Definition boundaries (example_lap : list (R * R)) (track_width : R)
  (interp_points : nat) : Res (list (R * R) * list (R * R)) :=
  (let* g := build_track_from_example_lap example_lap track_width in
   let* inner := _interpolate_points (x_inner g) (y_inner g) interp_points in
   let* outer := _interpolate_points (x_outer g) (y_outer g) interp_points in
   Ok (inner, outer))%res.

(** The distance between two points of the plane. *)
Definition distance (p q : R * R) : R :=
  sqrt ((fst p - fst q) ^ 2 + (snd p - snd q) ^ 2).

(** The tangent of the lap at sample [i], and the unit normal the
    builder offsets along: the tangent over its guarded norm, turned
    by a quarter. *)
Definition tangent_at (example_lap : list (R * R)) (i : nat) : R * R :=
  (gradient_at (map fst example_lap) i, gradient_at (map snd example_lap) i).

Definition normal_at (example_lap : list (R * R)) (i : nat) : R * R :=
  let g := tangent_at example_lap i in
  let n := guard_norm (sqrt (fst g ^ 2 + snd g ^ 2)) in
  (- (snd g / n), fst g / n).

(** Sample [i] of a boundary before resampling. *)
Definition point_at (xs ys : list R) (i : nat) : R * R :=
  (nth i xs 0, nth i ys 0).

(** Where [np.interp] finds an abscissa among the sample abscissas
    from [x0] on: the segment (counted from [x0]) and the fraction of
    the segment covered. *)
Fixpoint locate (x x0 : R) (rest : list R) : nat * R :=
  match rest with
  | [] => (O, 0)
  | x1 :: rest' =>
      if Rlt_dec x x1 then (O, (x - x0) / (x1 - x0))
      else let jl := locate x x1 rest' in (S (fst jl), snd jl)
  end.

(** The point a fraction [l] of the way from [p] to [q]. *)
Definition lerp (p q : R * R) (l : R) : R * R :=
  (fst p + l * (fst q - fst p), snd p + l * (snd q - snd p)).

(** Three samples on a straight line, and a single sample. *)
Definition straight_lap : list (R * R) := [(0, 0); (10, 0); (20, 0)].
Definition single_sample_lap : list (R * R) := [(0, 0)].

End Track.

(** ** Orders and sample frames of the renderer *)

(** The lexicographic order on [(lap, distance)] pairs. *)
Definition lex_le (a b : Z * Q) : Prop :=
  (fst a < fst b)%Z \/ (fst a = fst b /\ snd a <= snd b).

Definition lex_lt (a b : Z * Q) : Prop :=
  (fst a < fst b)%Z \/ (fst a = fst b /\ snd a < snd b).

(** The rows of the leaderboard in rank order, their codes and their
    texts. *)
Definition board_rows (self : F1ReplayWindow) (frame : Frame) : list Row :=
  sort_by_dist_reverse (driver_list self frame).

Definition board_codes (self : F1ReplayWindow) (frame : Frame) : list string :=
  map (fun r => fst (fst r)) (board_rows self frame).

Definition board_texts (self : F1ReplayWindow) (frame : Frame) : list string :=
  map text (leaderboard self frame).

(** Descending distance: [a] may stand above [b]. *)
Definition dist_desc (a b : Row) : Prop := board_key b <= board_key a.

(** Rows of key [k]. *)
Definition has_key (k : Q) (r : Row) : bool := Qeq_bool (board_key r) k.

(** Drivers A (distance 10), B (distance 30) and C (distance 20, retired),
    on lap 1. *)
Definition driver_A : DriverPos := mkPos 0 0 (Some 1%Z) (Some 10) (Some 0).
Definition driver_B : DriverPos := mkPos 5 0 (Some 1%Z) (Some 30) (Some 0).
Definition driver_C : DriverPos := mkPos 9 0 (Some 1%Z) (Some 20) (Some 1).

Definition frame_ABC : Frame :=
  mkFrame 0 [("A", driver_A); ("B", driver_B); ("C", driver_C)]%string.

(** A driver without a recorded distance next to one 500 units into
    the lap. *)
Definition driver_no_dist : DriverPos := mkPos 0 0 (Some 1%Z) None (Some 0).
Definition driver_500 : DriverPos := mkPos 0 0 (Some 1%Z) (Some 500) (Some 0).

Definition frame_no_dist : Frame :=
  mkFrame 0 [("X", driver_no_dist); ("Y", driver_500)]%string.

(** Drivers A (lap 2, distance 50) and B (lap 3, distance 10), one hour,
    two minutes and five and a half seconds into the race. *)
Definition driver_A2 : DriverPos := mkPos 0 0 (Some 2%Z) (Some 50) (Some 0).
Definition driver_B3 : DriverPos := mkPos 0 0 (Some 3%Z) (Some 10) (Some 0).

Definition frame_AB : Frame :=
  mkFrame (7451 # 2) [("A", driver_A2); ("B", driver_B3)]%string.

(** The frame in which every missing distance is recorded as [d]. *)
Definition with_dist (d : Q) (pos : DriverPos) : DriverPos :=
  mkPos (x pos) (y pos) (lap pos) (Some (get (dist pos) d)) (rel_dist pos).

Definition fill_dist (d : Q) (frame : Frame) : Frame :=
  mkFrame (t frame)
    (map (fun e => (fst e, with_dist d (snd e))) (drivers frame)).

(** ** Sample windows

    A replay of 100 frames at speed 1, at its start, at frame 5 and at
    frame 95, in the default window size. *)

Definition window_at (i : Z) : F1ReplayWindow :=
  mkWindow (repeat (mkFrame 0 []) 100) 100 1 [] i false 0 0 0 0 [] [] [] [] 1 0 0 1920 1200.

Definition window0 : F1ReplayWindow := window_at 0.
Definition window5 : F1ReplayWindow := window_at 5.
Definition window95 : F1ReplayWindow := window_at 95.

(** A window over a track whose bounding box is 800 by 200 world units,
    centred at (100, 0). *)
Definition window_track : F1ReplayWindow :=
  mkWindow [] 0 1 [] 0 false (-300) 500 (-100) 100
    [(0, 0); (100, 50)] [(0, 10); (100, 60)] [] [] 1 0 0 1920 1200.

(** ** Renderer: frame lookup, track, cars and timeline *)

(** [l[i]] on a Python list: an index below zero counts from the end,
    an index outside the list raises [IndexError] ([None]). *)
Definition getitem {A : Type} (l : list A) (i : Z) : option A :=
  let n := Z.of_nat (List.length l) in
  if (0 <=? i)%Z then nth_error l (Z.to_nat i)
  else if (- n <=? i)%Z then nth_error l (Z.to_nat (n + i))
  else None.

(** [frame = self.frames[self.frame_index]] of [on_draw]. *)
Definition current_frame (self : F1ReplayWindow) : option Frame :=
  getitem (frames self) (frame_index self).

Definition color_BLACK : Color := (0, 0, 0)%Z.
Definition color_DARK_GRAY : Color := (169, 169, 169)%Z.
Definition track_color : Color := (150, 150, 150)%Z.

(** The drawing calls of [on_draw] and [draw_timeline]. *)
Inductive DrawCmd :=
| draw_circle_filled (center_x center_y radius : Q) (c : Color)
| draw_text (d : DrawText)
| draw_line (x1 y1 x2 y2 : Q) (c : Color) (line_width : Q)
| draw_line_strip (point_list : list (Q * Q)) (c : Color) (line_width : Q).

(** Step 2 of [on_draw]: the two boundaries, each when it has more than
    one point, and the start/finish line between their first points
    when both have one. *)
Definition draw_track (self : F1ReplayWindow) : list DrawCmd :=
  (if (1 <? List.length (screen_inner_points self))%nat
   then [draw_line_strip (screen_inner_points self) track_color 4] else [])
  ++ (if (1 <? List.length (screen_outer_points self))%nat
      then [draw_line_strip (screen_outer_points self) track_color 4] else [])
  ++ match screen_inner_points self, screen_outer_points self with
     | (sx1, sy1) :: _, (sx2, sy2) :: _ =>
         [draw_line sx1 sy1 sx2 sy2 color.WHITE 3]
     | _, _ => []
     end.

(** Step 3 of [on_draw]: the loop over the drivers of the frame; a
    retired driver is passed over, any other one gets a black ring, a
    disc in its colour and its code. *)
Fixpoint draw_cars (self : F1ReplayWindow) (ds : list (string * DriverPos))
  : list DrawCmd :=
  match ds with
  | [] => []
  | (code, pos) :: rest =>
      if is_out pos then draw_cars self rest
      else
        let s := world_to_screen self (x pos) (y pos) in
        let col := color_of (driver_colors self) code in
        draw_circle_filled (fst s) (snd s) 8 color_BLACK
        :: draw_circle_filled (fst s) (snd s) 6 col
        :: draw_text (mkText code (fst s + 10) (snd s + 4) color.WHITE 10)
        :: draw_cars self rest
  end.

(** The codes written next to the cars, and the discs drawn, in drawing
    order. *)
Fixpoint car_labels (cmds : list DrawCmd) : list string :=
  match cmds with
  | [] => []
  | draw_text d :: rest => text d :: car_labels rest
  | _ :: rest => car_labels rest
  end.

Fixpoint car_discs (cmds : list DrawCmd) : list (Q * Q) :=
  match cmds with
  | [] => []
  | draw_circle_filled cx cy r _ :: rest =>
      if Qeq_bool r 6 then (cx, cy) :: car_discs rest else car_discs rest
  | _ :: rest => car_discs rest
  end.

(** The drivers still racing, in the order of the mapping. *)
Definition racing (frame : Frame) : list (string * DriverPos) :=
  filter (fun d => negb (is_out (snd d))) (drivers frame).

(** [draw_timeline], up to the knob: the progress of the replay and the
    abscissa of the knob on the bar. *)
Definition margin_x : Q := 80.

Definition timeline_progress (self : F1ReplayWindow) : Res Q :=
  if (1 <? n_frames self)%Z
  then Py.div (inject_Z (frame_index self)) (inject_Z (n_frames self - 1))
  else Ok 0.

Definition timeline_knob_x (self : F1ReplayWindow) : Res Q :=
  (let* progress := timeline_progress self in
   Ok (margin_x + progress * (width self - 2 * margin_x)))%res.

(** The window [__init__] leaves as far as playback goes: the frame
    count is the length of the frame list. *)
Definition frames_counted (self : F1ReplayWindow) : Prop :=
  n_frames self = Z.of_nat (List.length (frames self)).

(** The cached screen points are the world points under the current
    transform. *)
Definition cache_coherent (self : F1ReplayWindow) : Prop :=
  screen_inner_points self
  = map (fun p => world_to_screen self (fst p) (snd p)) (world_inner_points self)
  /\ screen_outer_points self
     = map (fun p => world_to_screen self (fst p) (snd p))
           (world_outer_points self).

(** A point of the world bounding box, and a point of the screen inside
    the padding. *)
Definition in_world_box (self : F1ReplayWindow) (px py : Q) : Prop :=
  x_min self <= px <= x_max self /\ y_min self <= py <= y_max self.

Definition in_padded_screen (w h : Q) (s : Q * Q) : Prop :=
  padding * w <= fst s <= (1 - padding) * w
  /\ padding * h <= snd s <= (1 - padding) * h.

(** A replay of three frames with a car on the track and a retired one. *)
Definition driver_on_track : DriverPos := mkPos 100 0 (Some 1%Z) (Some 30) (Some 0).
Definition driver_retired : DriverPos := mkPos 0 0 (Some 1%Z) (Some 20) (Some 1).

Definition frame_two : Frame :=
  mkFrame 12 [("VER", driver_on_track); ("HAM", driver_retired)]%string.

Definition window_replay : F1ReplayWindow :=
  mkWindow [frame_two; frame_two; frame_two] 3 1 [] 1 false
    (-300) 500 (-100) 100
    [(0, 0); (100, 50)] [(0, 10); (100, 60)] [] [] 1 0 0 1920 1200.

(** The point half-way between two points of the plane. *)
Definition midpoint (p q : R * R) : R * R :=
  (((fst p + fst q) / 2)%R, ((snd p + snd q) / 2)%R).

(** A lap whose samples all lie on one spot. *)
Definition stationary (example_lap : list (R * R)) (c : R * R) : Prop :=
  forall p, In p example_lap -> p = c.

Definition parked_lap : list (R * R) := [(7, 3); (7, 3); (7, 3)]%R.

(** ** The clock and the lap as the spec writes them

    [HH:MM:SS]: two decimal digits for the hours, the minutes and the
    seconds; the lap as a plain number.  Written digit by digit, apart
    from the formatting of the code. *)





(** ** The range of the floats

    The largest finite double.  A speed is a finite float when it lies
    within it; a timestamp below [2 ^ 53] has all its whole seconds
    held exactly. *)

Definition float_max : Q := inject_Z (2 ^ 1024 - 2 ^ 971).

Definition finite_float (s : Q) : Prop := - float_max <= s <= float_max.

Definition whole_seconds_exact (t : Q) : Prop := 0 <= t < inject_Z (2 ^ 53).

(** * Properties *)

Lemma Qhalf (a : Q) : a / 2 == a * (1 # 2).
Proof. reflexivity. Qed.

(** Linear arithmetic over the rationals, halves included ([lra] alone
    is that of the reals). *)
Ltac qlra :=
  repeat match goal with
    | H : context [(?a / 2)%Q] |- _ => rewrite (Qhalf a) in H
    | |- context [(?a / 2)%Q] => rewrite (Qhalf a)
    end;
  Lqa.lra.

(** ** Python built-ins *)

Lemma Py_max_Qmax (a b : Q) : Py.max a b == Qmax a b.
Proof.
  unfold Py.max. destruct (Qle_bool b a) eqn:E.
  - apply Qle_bool_iff in E. symmetry. now apply Q.max_l.
  - symmetry. apply Q.max_r. apply Qlt_le_weak, Qnot_le_lt.
    intro H. apply Qle_bool_iff in H. congruence.
Qed.

Lemma Py_min_Qmin (a b : Q) : Py.min a b == Qmin a b.
Proof.
  unfold Py.min. destruct (Qle_bool a b) eqn:E.
  - apply Qle_bool_iff in E. symmetry. now apply Q.min_l.
  - symmetry. apply Q.min_r. apply Qlt_le_weak, Qnot_le_lt.
    intro H. apply Qle_bool_iff in H. congruence.
Qed.

Lemma Py_max_lower (a b : Q) : a <= Py.max a b.
Proof. rewrite Py_max_Qmax. apply Q.le_max_l. Qed.

(** Truncation and floor agree from 0 on, and neither reaches 1 below 0:
    the step of a tick is the same with either. *)
Lemma step_int_floor (s : Q) :
  Z.max 1 (Py.int s) = Z.max 1 (Qfloor s).
Proof.
  destruct s as [n d]. unfold Py.int, Qfloor. cbn [Qnum Qden].
  destruct (Z_lt_le_dec n 0) as [Hn | Hn].
  - assert (Z.quot n (Z.pos d) <= 0)%Z.
    { apply Z.quot_le_upper_bound; lia. }
    assert (n / Z.pos d < 0)%Z.
    { apply Z.div_lt_upper_bound; lia. }
    lia.
  - now rewrite Z.quot_div_nonneg by lia.
Qed.

(** ** Playback controller *)

Section Playback.

Variable self : F1ReplayWindow.

Let n := n_frames self.
Let i := frame_index self.
Let speed := playback_speed self.

Lemma on_update_fields :
  n_frames (on_update self) = n
  /\ playback_speed (on_update self) = speed
  /\ paused (on_update self) = paused self.
Proof.
  unfold on_update. destruct (paused self) eqn:E; [now rewrite E|].
  now destruct (_ <=? _)%Z.
Qed.

Lemma on_update_index :
  paused self = false ->
  frame_index (on_update self)
  = Z.min (i + Z.max 1 (Qfloor speed)) (n - 1).
Proof.
  intros Hp. unfold on_update. rewrite Hp, step_int_floor.
  fold i n speed. destruct (Z.leb_spec n (i + Z.max 1 (Qfloor speed)));
    cbn; lia.
Qed.

Lemma on_key_press_n_frames (symbol modifiers : Z) :
  n_frames (on_key_press self symbol modifiers) = n.
Proof.
  unfold on_key_press.
  repeat match goal with |- context [if ?c then _ else _] => destruct c end;
    reflexivity.
Qed.

Lemma on_key_press_in_range (symbol modifiers : Z) :
  (1 <= n)%Z -> index_in_range self ->
  index_in_range (on_key_press self symbol modifiers).
Proof.
  unfold index_in_range. intros Hn Hi.
  rewrite on_key_press_n_frames. fold i n in Hi |- *.
  unfold on_key_press.
  repeat match goal with |- context [if ?c then _ else _] => destruct c end;
    cbn; fold i n; lia.
Qed.

Lemma on_update_in_range :
  (1 <= n)%Z -> index_in_range self -> index_in_range (on_update self).
Proof.
  unfold index_in_range. intros Hn Hi.
  destruct on_update_fields as (-> & _). fold i n in Hi |- *.
  destruct (paused self) eqn:Hp.
  - unfold on_update. rewrite Hp. fold i. lia.
  - rewrite (on_update_index Hp). lia.
Qed.

End Playback.

Lemma ticks_fields (k : nat) : forall self,
  n_frames (ticks k self) = n_frames self
  /\ playback_speed (ticks k self) = playback_speed self
  /\ paused (ticks k self) = paused self.
Proof.
  induction k as [|k IH]; intros self; cbn; [easy|].
  destruct (IH (on_update self)) as (-> & -> & ->).
  apply on_update_fields.
Qed.

(** [k] ticks of a running replay advance by [k] steps, up to the last
    frame. *)
Lemma ticks_index (k : nat) : forall self,
  paused self = false -> (1 <= n_frames self)%Z -> index_in_range self ->
  frame_index (ticks k self)
  = Z.min (frame_index self
           + Z.of_nat k * Z.max 1 (Qfloor (playback_speed self)))
          (n_frames self - 1).
Proof.
  induction k as [|k IH]; intros self Hp Hn Hi.
  - cbn [ticks]. unfold index_in_range in Hi. lia.
  - cbn [ticks].
    destruct (on_update_fields self) as (En & Es & Epa).
    rewrite IH.
    + rewrite En, Es, (on_update_index self Hp). unfold index_in_range in Hi. nia.
    + now rewrite Epa.
    + now rewrite En.
    + now apply on_update_in_range.
Qed.

(** C3. A tick of a running replay moves the index to
    [min(index + max(1, floor(speed)), n_frames - 1)]; at speed 1 over
    100 frames, from index 0, the index is 50 after 50 ticks, 99 after
    100 ticks, and 99 after any number of further ticks. *)
Theorem tick_advances_and_holds (self : F1ReplayWindow) :
  paused self = false ->
  (1 <= n_frames self)%Z ->
  index_in_range self ->
  frame_index (on_update self)
  = Z.min (frame_index self + Z.max 1 (Qfloor (playback_speed self)))
          (n_frames self - 1)
  /\ (frame_index self = n_frames self - 1 ->
      forall k, frame_index (ticks k self) = n_frames self - 1)%Z
  /\ (playback_speed self == 1 -> n_frames self = 100%Z ->
      frame_index self = 0%Z ->
      frame_index (ticks 50 self) = 50%Z
      /\ frame_index (ticks 100 self) = 99%Z
      /\ forall k, frame_index (ticks (100 + k) self) = 99%Z).
Proof.
  intros Hp Hn Hi. split; [now apply on_update_index|]. split.
  - intros Hlast k. rewrite ticks_index by assumption. nia.
  - intros Hs H100 H0.
    assert (Hstep : Z.max 1 (Qfloor (playback_speed self)) = 1%Z).
    { now rewrite (Qfloor_comp _ _ Hs). }
    repeat split; intros; rewrite ticks_index by assumption;
      rewrite Hstep, H100, H0; lia.
Qed.

Lemma tick_advances_and_holds_witness :
  frame_index (on_update window0) = 1%Z
  /\ frame_index (ticks 50 window0) = 50%Z
  /\ frame_index (ticks 100 window0) = 99%Z
  /\ frame_index (ticks 250 window0) = 99%Z.
Proof.
  assert (Hi : index_in_range window0) by (unfold index_in_range; cbn; lia).
  destruct (tick_advances_and_holds window0 eq_refl ltac:(cbn; lia) Hi)
    as (H1 & _ & H2).
  destruct (H2 ltac:(reflexivity) eq_refl eq_refl) as (H50 & H100 & Hk).
  exact (conj H1 (conj H50 (conj H100 (Hk 150%nat)))).
Defined.

Lemma run_ops_in_range (ops : list ControllerOp) : forall self,
  (1 <= n_frames self)%Z -> index_in_range self ->
  index_in_range (run_ops ops self)
  /\ n_frames (run_ops ops self) = n_frames self.
Proof.
  unfold run_ops.
  induction ops as [|op ops IH]; intros self Hn Hi; cbn [fold_left]; [easy|].
  assert (En : n_frames (step_op self op) = n_frames self).
  { destruct op; cbn; [apply on_update_fields | apply on_key_press_n_frames]. }
  assert (Hi' : index_in_range (step_op self op)).
  { destruct op; cbn;
      [now apply on_update_in_range | now apply on_key_press_in_range]. }
  destruct (IH (step_op self op)) as (IHr & IHn); [lia | assumption |].
  split; [assumption | congruence].
Qed.

(** C4. With at least one frame and the index within the frame store,
    every run of controller operations (ticks and key presses of any
    symbol) leaves the index within the frame store; the right and left
    arrows set it to [clamp(index + 10, 0, n_frames - 1)] and
    [clamp(index - 10, 0, n_frames - 1)], paused or not; left from 5
    gives 0, right from 95 of 100 gives 99. *)
Theorem index_stays_in_range (self : F1ReplayWindow) :
  (1 <= n_frames self)%Z ->
  index_in_range self ->
  (forall ops, index_in_range (run_ops ops self))
  /\ (forall p modifiers,
        frame_index (on_key_press (set_paused self p) key.RIGHT modifiers)
        = clamp (frame_index self + 10) 0 (n_frames self - 1)
        /\ frame_index (on_key_press (set_paused self p) key.LEFT modifiers)
           = clamp (frame_index self - 10) 0 (n_frames self - 1))
  /\ (forall modifiers, frame_index self = 5%Z ->
        frame_index (on_key_press self key.LEFT modifiers) = 0%Z)
  /\ (forall modifiers, frame_index self = 95%Z -> n_frames self = 100%Z ->
        frame_index (on_key_press self key.RIGHT modifiers) = 99%Z).
Proof.
  intros Hn Hi. unfold index_in_range in Hi.
  split; [intros ops; now apply run_ops_in_range|].
  split; [|split].
  - intros p modifiers. unfold clamp. cbn. lia.
  - intros modifiers H5. cbn. lia.
  - intros modifiers H95 H100. cbn. lia.
Qed.

Lemma index_stays_in_range_witness :
  index_in_range
    (run_ops [Tick; KeyPress key.RIGHT 0; KeyPress key.UP 0; Tick;
              KeyPress key.SPACE 0; KeyPress key.LEFT 0; KeyPress 7 0]
             window95)
  /\ frame_index (on_key_press window95 key.RIGHT 0) = 99%Z
  /\ frame_index (on_key_press window5 key.LEFT 0) = 0%Z.
Proof.
  assert (H95 : index_in_range window95) by (unfold index_in_range; cbn; lia).
  assert (H5 : index_in_range window5) by (unfold index_in_range; cbn; lia).
  destruct (index_stays_in_range window95 ltac:(cbn; lia) H95)
    as (Hops & _ & _ & Hr).
  destruct (index_stays_in_range window5 ltac:(cbn; lia) H5)
    as (_ & _ & Hl & _).
  exact (conj (Hops _) (conj (Hr 0%Z eq_refl eq_refl) (Hl 0%Z eq_refl))).
Defined.

(** ** Speed *)

Lemma presses_S (n : nat) (symbol : Z) : forall self,
  presses (S n) symbol self
  = on_key_press (presses n symbol self) symbol 0.
Proof.
  induction n as [|n IH]; intros self; [reflexivity|].
  change (presses (S (S n)) symbol self)
    with (presses (S n) symbol (on_key_press self symbol 0)).
  now rewrite IH.
Qed.

Lemma halve_speed (self : F1ReplayWindow) (modifiers : Z) :
  playback_speed (on_key_press self key.DOWN modifiers)
  = Py.max (1 # 10) (playback_speed self / 2).
Proof. reflexivity. Qed.

Lemma double_speed (self : F1ReplayWindow) (modifiers : Z) :
  playback_speed (on_key_press self key.UP modifiers)
  = playback_speed self * 2.
Proof. reflexivity. Qed.

Lemma halved_at_least_tenth (n : nat) (self : F1ReplayWindow) :
  1 # 10 <= playback_speed self -> 1 # 10 <= speed_after n key.DOWN self.
Proof.
  unfold speed_after. destruct n as [|n]; [easy|]. intros _.
  rewrite presses_S, halve_speed. apply Py_max_lower.
Qed.

Lemma doubled_speed (n : nat) (self : F1ReplayWindow) :
  speed_after n key.UP self == playback_speed self * inject_Z (2 ^ Z.of_nat n).
Proof.
  unfold speed_after. induction n as [|n IH].
  - cbn. ring.
  - rewrite presses_S, double_speed, IH.
    rewrite Nat2Z.inj_succ, Z.pow_succ_r by lia.
    rewrite inject_Z_mult. ring.
Qed.

Lemma halve_speed_floor (s : Q) :
  s / 2 <= 1 # 10 -> Py.max (1 # 10) (s / 2) = 1 # 10.
Proof.
  intros H. unfold Py.max. apply Qle_bool_iff in H. now rewrite H.
Qed.

Lemma halve_speed_above (s : Q) :
  1 # 10 < s / 2 -> Py.max (1 # 10) (s / 2) = s / 2.
Proof.
  intros H. unfold Py.max. destruct (Qle_bool _ _) eqn:E; [|reflexivity].
  apply Qle_bool_iff in E. exfalso. qlra.
Qed.

Lemma doubling_unbounded (self : F1ReplayWindow) (bound : Q) :
  0 < playback_speed self -> exists n, bound < speed_after n key.UP self.
Proof.
  intros Hs. set (s := playback_speed self) in *.
  set (m := Z.max 0 (Qceiling (bound / s))).
  exists (Z.to_nat m). rewrite doubled_speed. fold s.
  assert (Hm : (0 <= m)%Z) by (unfold m; lia).
  rewrite Z2Nat.id by assumption.
  assert (Hpow : (m < 2 ^ m)%Z) by (apply Z.pow_gt_lin_r; lia).
  assert (Hc : bound / s <= inject_Z m).
  { eapply Qle_trans; [apply Qle_ceiling|].
    rewrite <- Zle_Qle. unfold m. lia. }
  assert (Hlt : inject_Z m < inject_Z (2 ^ m)) by now rewrite <- Zlt_Qlt.
  assert (Hb : bound == s * (bound / s)) by (field; qlra).
  rewrite Hb at 1. apply Qmult_lt_l; [assumption | qlra].
Qed.

(** C5. From a speed of at least 0.1, the down arrow gives
    [max(0.1, speed / 2)], still at least 0.1, and the up arrow gives
    twice the speed, which repeated passes every bound; from speed 1
    the fourth halving reaches 0.1 and every later one leaves it at
    0.1, with no speed below 0.1 on the way. *)
Theorem speed_halves_to_floor (self : F1ReplayWindow) (modifiers : Z) :
  1 # 10 <= playback_speed self ->
  playback_speed (on_key_press self key.DOWN modifiers)
  == Qmax (1 # 10) (playback_speed self / 2)
  /\ 1 # 10 <= playback_speed (on_key_press self key.DOWN modifiers)
  /\ playback_speed (on_key_press self key.UP modifiers)
     == 2 * playback_speed self
  /\ (forall bound, exists n, bound < speed_after n key.UP self)
  /\ (forall n, 1 # 10 <= speed_after n key.DOWN self)
  /\ (playback_speed self == 1 ->
      speed_after 1 key.DOWN self == 1 # 2
      /\ speed_after 2 key.DOWN self == 1 # 4
      /\ speed_after 3 key.DOWN self == 1 # 8
      /\ forall n, speed_after (4 + n) key.DOWN self = 1 # 10).
Proof.
  intros Hs. split; [|split; [|split; [|split; [|split]]]].
  - rewrite halve_speed. apply Py_max_Qmax.
  - rewrite halve_speed. apply Py_max_lower.
  - rewrite double_speed. ring.
  - intros bound. apply doubling_unbounded. qlra.
  - intros n. now apply halved_at_least_tenth.
  - intros H1.
    assert (E1 : speed_after 1 key.DOWN self == 1 # 2).
    { unfold speed_after. rewrite presses_S, halve_speed. cbn [presses].
      rewrite halve_speed_above; qlra. }
    assert (E2 : speed_after 2 key.DOWN self == 1 # 4).
    { unfold speed_after in *. rewrite presses_S, halve_speed.
      rewrite halve_speed_above; qlra. }
    assert (E3 : speed_after 3 key.DOWN self == 1 # 8).
    { unfold speed_after in *. rewrite presses_S, halve_speed.
      rewrite halve_speed_above; qlra. }
    repeat split; try assumption.
    intros n. unfold speed_after in *. induction n as [|n IH].
    + change (4 + 0)%nat with 4%nat.
      rewrite presses_S, halve_speed. apply halve_speed_floor. qlra.
    + rewrite Nat.add_succ_r, presses_S, halve_speed, IH. reflexivity.
Qed.

Lemma speed_halves_to_floor_witness :
  speed_after 3 key.DOWN window0 == 1 # 8
  /\ speed_after 4 key.DOWN window0 = 1 # 10
  /\ speed_after 9 key.DOWN window0 = 1 # 10
  /\ playback_speed (on_key_press window0 key.UP 0) == 2.
Proof.
  destruct (speed_halves_to_floor window0 0 ltac:(cbn; qlra))
    as (_ & _ & Hup & _ & _ & Hdown).
  destruct (Hdown ltac:(reflexivity)) as (_ & _ & H3 & Hn).
  exact (conj H3 (conj (Hn 0%nat) (conj (Hn 5%nat) Hup))).
Defined.

(** ** Coordinate transform *)

Section Viewport.

Variable self : F1ReplayWindow.
Variables screen_w screen_h : Q.

Let world_w := Py.max 1 (x_max self - x_min self).
Let world_h := Py.max 1 (y_max self - y_min self).
Let usable_w := screen_w * (1 - 2 * padding).
Let usable_h := screen_h * (1 - 2 * padding).
Let scale := Py.min (usable_w / world_w) (usable_h / world_h).

(** The floored extents are never zero. *)
Lemma world_extent_nonzero (lo hi : Q) :
  1 <= Py.max 1 (hi - lo) /\ Qeq_bool (Py.max 1 (hi - lo)) 0 = false.
Proof.
  assert (H : 1 <= Py.max 1 (hi - lo)) by apply Py_max_lower.
  split; [assumption|].
  destruct (Qeq_bool _ _) eqn:E; [|reflexivity].
  apply Qeq_bool_eq in E. Lqa.lra.
Qed.

Lemma update_scaling_ok :
  update_scaling self screen_w screen_h = Ok (rescaled self screen_w screen_h).
Proof.
  unfold update_scaling, Py.div.
  destruct (world_extent_nonzero (x_min self) (x_max self)) as (_ & ->).
  destruct (world_extent_nonzero (y_min self) (y_max self)) as (_ & ->).
  reflexivity.
Qed.

Lemma rescaled_scale :
  world_scale (rescaled self screen_w screen_h) = scale.
Proof. reflexivity. Qed.

End Viewport.

(** C6. [world_to_screen] is the affine map
    [(x, y) |-> (scale * x + tx, scale * y + ty)], a function of the
    window that writes nothing; after [update_scaling w h], for positive
    [w] and [h], the scale is the smaller of the two fit factors of the
    padded screen over the floored world extents, one scale for both
    axes, and the centre of the world bounding box goes to the screen
    centre [(w / 2, h / 2)] exactly, hence within half a pixel. *)
Theorem center_goes_to_screen_center (self : F1ReplayWindow) (w h : Q) :
  0 < w -> 0 < h ->
  exists self',
    update_scaling self w h = Ok self'
    /\ (forall x y,
          world_to_screen self' x y
          = (world_scale self' * x + tx self', world_scale self' * y + ty self'))
    /\ world_scale self'
       == Qmin (w * (1 - 2 * (5 # 100)) / Qmax 1 (x_max self - x_min self))
               (h * (1 - 2 * (5 # 100)) / Qmax 1 (y_max self - y_min self))
    /\ world_center self' = world_center self
    /\ (let c := world_center self in
        let p := world_to_screen self' (fst c) (snd c) in
        fst p == w / 2 /\ snd p == h / 2
        /\ Qabs (fst p - w / 2) <= 1 # 2 /\ Qabs (snd p - h / 2) <= 1 # 2).
Proof.
  intros _ _. exists (rescaled self w h).
  split; [apply update_scaling_ok|].
  split; [reflexivity|].
  split.
  { rewrite rescaled_scale, Py_min_Qmin.
    now rewrite !Py_max_Qmax. }
  split; [reflexivity|].
  cbv zeta.
  assert (Ex : fst (world_to_screen (rescaled self w h)
                      (fst (world_center self)) (snd (world_center self)))
               == w / 2).
  { cbn. ring. }
  assert (Ey : snd (world_to_screen (rescaled self w h)
                      (fst (world_center self)) (snd (world_center self)))
               == h / 2).
  { cbn. ring. }
  repeat split; try assumption.
  - rewrite Ex. setoid_replace (w / 2 - w / 2) with 0 by ring. discriminate.
  - rewrite Ey. setoid_replace (h / 2 - h / 2) with 0 by ring. discriminate.
Qed.

Lemma center_goes_to_screen_center_witness :
  exists self',
    update_scaling window_track 1920 1200 = Ok self'
    /\ world_center window_track = (200 # 2, 0 # 2)
    /\ fst (world_to_screen self' (200 # 2) (0 # 2)) == 1920 / 2
    /\ snd (world_to_screen self' (200 # 2) (0 # 2)) == 1200 / 2.
Proof.
  destruct (center_goes_to_screen_center window_track 1920 1200
              ltac:(reflexivity) ltac:(reflexivity))
    as (self' & Hok & _ & _ & _ & Hx & Hy & _).
  exists self'. exact (conj Hok (conj eq_refl (conj Hx Hy))).
Defined.

(** C9. [update_scaling] run twice with the same dimensions leaves the
    window the first run leaves: the same scale, the same translation,
    the same screen points. *)
Theorem update_scaling_idempotent (self : F1ReplayWindow) (w h : Q) :
  bind (update_scaling self w h) (fun self' => update_scaling self' w h)
  = update_scaling self w h
  /\ exists self' self'',
       update_scaling self w h = Ok self'
       /\ update_scaling self' w h = Ok self''
       /\ world_scale self'' = world_scale self'
       /\ tx self'' = tx self'
       /\ ty self'' = ty self'.
Proof.
  assert (E : rescaled (rescaled self w h) w h = rescaled self w h)
    by reflexivity.
  split.
  - rewrite update_scaling_ok. cbn [bind]. rewrite update_scaling_ok.
    now rewrite E.
  - exists (rescaled self w h), (rescaled (rescaled self w h) w h).
    split; [apply update_scaling_ok|].
    split; [apply update_scaling_ok|].
    now rewrite E.
Qed.

(** ** Leaderboard *)

Section Leaderboard.

Let desc := dist_desc.

Lemma insert_row_perm (r : Row) (l : list Row) :
  Permutation (insert_row r l) (r :: l).
Proof.
  induction l as [|r' l IH]; cbn; [reflexivity|].
  destruct (Qle_bool _ _); [reflexivity|].
  rewrite IH. apply perm_swap.
Qed.

Lemma sort_perm (l : list Row) : Permutation (sort_by_dist_reverse l) l.
Proof.
  induction l as [|r l IH]; cbn; [reflexivity|].
  rewrite insert_row_perm. now constructor.
Qed.

Lemma insert_row_sorted (r : Row) (l : list Row) :
  StronglySorted desc l -> StronglySorted desc (insert_row r l).
Proof.
  induction l as [|r' l IH]; intros Hs; cbn.
  - repeat constructor.
  - destruct (Qle_bool _ _) eqn:E.
    + apply Qle_bool_iff in E. inversion Hs as [|? ? Hl Hall]; subst.
      constructor; [assumption|]. constructor; [exact E|].
      rewrite Forall_forall in Hall |- *. intros z Hz.
      unfold desc, dist_desc in *. specialize (Hall z Hz). qlra.
    + assert (Hlt : board_key r < board_key r').
      { apply Qnot_le_lt. intro H. apply Qle_bool_iff in H. congruence. }
      inversion Hs as [|? ? Hl Hall]; subst.
      constructor; [now apply IH|].
      rewrite Forall_forall in Hall |- *. intros z Hz.
      apply (Permutation_in _ (insert_row_perm r l)) in Hz.
      destruct Hz as [<- | Hz]; [unfold desc, dist_desc; qlra | now apply Hall].
Qed.

Lemma sort_sorted (l : list Row) :
  StronglySorted desc (sort_by_dist_reverse l).
Proof.
  induction l as [|r l IH]; cbn; [constructor | now apply insert_row_sorted].
Qed.

(** Insertion never passes a row of the same key. *)
Lemma insert_row_stable (k : Q) (r : Row) (l : list Row) :
  filter (has_key k) (insert_row r l) = filter (has_key k) (r :: l).
Proof.
  induction l as [|r' l IH]; [reflexivity|].
  cbn [insert_row]. destruct (Qle_bool _ _) eqn:E; [reflexivity|].
  cbn [filter] in *. rewrite IH.
  destruct (has_key k r) eqn:Er, (has_key k r') eqn:Er'; try reflexivity.
  exfalso. unfold has_key in *.
  apply Qeq_bool_eq in Er, Er'.
  assert (H : board_key r' <= board_key r) by qlra.
  apply Qle_bool_iff in H. congruence.
Qed.

Lemma sort_stable (k : Q) (l : list Row) :
  filter (has_key k) (sort_by_dist_reverse l) = filter (has_key k) l.
Proof.
  induction l as [|r l IH]; [reflexivity|].
  cbn [sort_by_dist_reverse]. rewrite insert_row_stable.
  cbn [filter]. now rewrite IH.
Qed.

Lemma draw_rows_length (self : F1ReplayWindow) (l : list Row) :
  forall i, List.length (draw_rows self i l) = List.length l.
Proof.
  induction l as [|[[c col] p] l IH]; intros i; cbn; [reflexivity|].
  now rewrite IH.
Qed.

Lemma draw_rows_nth (self : F1ReplayWindow) (l : list Row) :
  forall i j code col pos,
    nth_error l j = Some (code, col, pos) ->
    nth_error (draw_rows self i l) j
    = Some (mkText (row_text (i + j) code pos)
              (panel_x self - panel_width / 2 + 12)
              (row_y self - inject_Z (Z.of_nat (i + j)) * row_height)
              col 14).
Proof.
  induction l as [|[[c col'] p] l IH]; intros i j code col pos Hj.
  - destruct j; discriminate.
  - destruct j as [|j]; cbn in Hj |- *.
    + injection Hj as -> -> ->. now rewrite Nat.add_0_r.
    + rewrite (IH (S i) j code col pos Hj).
      now rewrite Nat.add_succ_r.
Qed.

End Leaderboard.

Lemma perm3_cases {A : Type} (a b c : A) (l : list A) :
  Permutation l [a; b; c] ->
  l = [a; b; c] \/ l = [a; c; b] \/ l = [b; a; c]
  \/ l = [b; c; a] \/ l = [c; a; b] \/ l = [c; b; a].
Proof.
  intros H.
  assert (Hlen := Permutation_length H).
  destruct l as [|x [|y [|z [|? ?]]]]; try discriminate Hlen.
  assert (Hx : In x [a; b; c]) by (apply (Permutation_in _ H); now left).
  cbn in Hx. destruct Hx as [<- | [<- | [<- | []]]].
  - apply Permutation_cons_inv in H.
    apply Permutation_length_2_inv in H as [E | E]; injection E as -> ->; auto.
  - assert (H' : Permutation (b :: [y; z]) (b :: [a; c])).
    { rewrite H. apply perm_swap. }
    apply Permutation_cons_inv in H'.
    apply Permutation_length_2_inv in H' as [E | E]; injection E as -> ->;
      auto 6.
  - assert (H' : Permutation (c :: [y; z]) (c :: [a; b])).
    { rewrite H. transitivity [a; c; b];
        [apply perm_skip, perm_swap | apply perm_swap]. }
    apply Permutation_cons_inv in H'.
    apply Permutation_length_2_inv in H' as [E | E]; injection E as -> ->;
      auto 7.
Qed.

(** Evaluates a comparison of two numerals. *)
Ltac eval_Qle_bool :=
  match goal with
  | |- context [Qle_bool ?a ?b] =>
      let v := eval vm_compute in (Qle_bool a b) in
      change (Qle_bool a b) with v
  end.

Lemma row_text_shape (i : nat) (code : string) (pos : DriverPos) :
  row_text i code pos
  = (Py.fmt_r2 (Z.of_nat i + 1) ++ ". " ++ code
     ++ (if is_out pos then "   OUT" else ""))%string.
Proof.
  unfold row_text. destruct (is_out pos); [reflexivity|].
  assert (E : forall s : string, (s ++ "")%string = s).
  { induction s as [|ch s IH]; cbn; [reflexivity | now rewrite IH]. }
  now rewrite E.
Qed.

(** C1 (as the code has it). The leaderboard holds every driver of the
    frame once, by descending cumulative distance, drivers of equal
    distance in the iteration order of the mapping; row [j] is drawn
    [j] row heights below the first one, in the driver's colour, with
    the rank, the code and, for a retired driver, the mark OUT.
    Retirement does not move a driver: A (distance 10), B (30) and
    retired C (20), in whatever order the mapping has them, come out
    as B, C, A, with C marked OUT. *)
Theorem leaderboard_by_descending_distance
  (self : F1ReplayWindow) (frame : Frame) :
  Permutation (board_rows self frame) (driver_list self frame)
  /\ StronglySorted dist_desc (board_rows self frame)
  /\ (forall k, filter (has_key k) (board_rows self frame)
                = filter (has_key k) (driver_list self frame))
  /\ List.length (leaderboard self frame) = List.length (drivers frame)
  /\ (forall j code col pos,
        nth_error (board_rows self frame) j = Some (code, col, pos) ->
        exists d,
          nth_error (leaderboard self frame) j = Some d
          /\ text d = (Py.fmt_r2 (Z.of_nat j + 1) ++ ". " ++ code
                       ++ (if is_out pos then "   OUT" else ""))%string
          /\ start_y d = row_y self - inject_Z (Z.of_nat j) * 22
          /\ txt_color d = col)
  /\ (forall pa pb pc l,
        dist pa = Some 10 -> dist pb = Some 30 -> dist pc = Some 20 ->
        is_out pa = false -> is_out pb = false -> is_out pc = true ->
        Permutation l [("A", pa); ("B", pb); ("C", pc)]%string ->
        drivers frame = l ->
        board_codes self frame = ["B"; "C"; "A"]%string
        /\ board_texts self frame
           = [" 1. B"; " 2. C   OUT"; " 3. A"]%string).
Proof.
  split; [apply sort_perm|].
  split; [apply sort_sorted|].
  split; [intros k; apply sort_stable|].
  split.
  { unfold leaderboard. rewrite draw_rows_length.
    rewrite (Permutation_length (sort_perm _)).
    unfold driver_list. apply length_map. }
  split.
  { intros j code col pos Hj. eexists. split.
    - unfold leaderboard. apply (draw_rows_nth self _ 0 j code col pos Hj).
    - cbn [text start_y txt_color]. rewrite row_text_shape.
      repeat split. }
  intros pa pb pc l Ha Hb Hc Oa Ob Oc Hl Hd.
  unfold board_codes, board_texts, leaderboard, board_rows, driver_list.
  rewrite Hd.
  apply perm3_cases in Hl.
  assert (Ka : forall c col, board_key (c, col, pa) = 10)
    by (intros; unfold board_key; cbn; now rewrite Ha).
  assert (Kb : forall c col, board_key (c, col, pb) = 30)
    by (intros; unfold board_key; cbn; now rewrite Hb).
  assert (Kc : forall c col, board_key (c, col, pc) = 20)
    by (intros; unfold board_key; cbn; now rewrite Hc).
  destruct Hl as [-> | [-> | [-> | [-> | [-> | ->]]]]];
    repeat first
      [ rewrite Ka | rewrite Kb | rewrite Kc
      | eval_Qle_bool
      | progress cbn [map fst snd sort_by_dist_reverse insert_row
                      draw_rows text] ];
    unfold row_text; rewrite Oa, Ob, Oc; split; reflexivity.
Qed.

Lemma leaderboard_by_descending_distance_witness :
  board_codes window0 frame_ABC = ["B"; "C"; "A"]%string
  /\ board_texts window0 frame_ABC
     = [" 1. B"; " 2. C   OUT"; " 3. A"]%string.
Proof.
  destruct (leaderboard_by_descending_distance window0 frame_ABC)
    as (_ & _ & _ & _ & _ & H).
  exact (H driver_A driver_B driver_C (drivers frame_ABC)
           eq_refl eq_refl eq_refl eq_refl eq_refl eq_refl
           (Permutation_refl _) eq_refl).
Defined.

(** The ranking B, A, C, with the retired driver last, is not the one
    drawn: C keeps the second place its distance gives it. *)
Lemma leaderboard_retired_not_last :
  board_codes window0 frame_ABC <> ["B"; "A"; "C"]%string
  /\ board_texts window0 frame_ABC
     = [" 1. B"; " 2. C   OUT"; " 3. A"]%string.
Proof.
  split; [|reflexivity].
  intros H. vm_compute in H. discriminate H.
Qed.

(** ** Race clock *)

Lemma Py_int_inject (z : Z) : Py.int (inject_Z z) = z.
Proof. unfold Py.int. cbn. apply Z.quot_1_r. Qed.

Lemma Py_int_nonneg (q : Q) : 0 <= q -> Py.int q = Qfloor q.
Proof.
  destruct q as [n d]. unfold Qle, Py.int, Qfloor. cbn. intros H.
  apply Z.quot_div_nonneg; lia.
Qed.

Lemma Qfloor_unique (q : Q) (z : Z) :
  inject_Z z <= q -> q < inject_Z (z + 1) -> Qfloor q = z.
Proof.
  intros Hlo Hhi.
  assert (H1 : (z <= Qfloor q)%Z).
  { rewrite <- (Qfloor_Z z). now apply Qfloor_resp_le. }
  assert (H2 : (Qfloor q < z + 1)%Z).
  { rewrite Zlt_Qlt. eapply Qle_lt_trans; [apply Qfloor_le | exact Hhi]. }
  lia.
Qed.

Lemma Qfloor_sub_Z (q : Q) (m : Z) : Qfloor (q - inject_Z m) = (Qfloor q - m)%Z.
Proof.
  apply Qfloor_unique.
  - unfold Zminus. rewrite inject_Z_plus, inject_Z_opp.
    generalize (Qfloor_le q). Lqa.lra.
  - replace (Qfloor q - m + 1)%Z with ((Qfloor q + 1) + - m)%Z by lia.
    rewrite inject_Z_plus, inject_Z_opp.
    generalize (Qlt_floor q). Lqa.lra.
Qed.

Lemma Qfloor_div_pos (q : Q) (k : positive) :
  Qfloor (q / inject_Z (Z.pos k)) = (Qfloor q / Z.pos k)%Z.
Proof.
  destruct q as [n d]. unfold Qfloor, Qdiv, Qmult, Qinv. cbn.
  rewrite Z.mul_1_r, Pos2Z.inj_mul. symmetry. apply Z.div_div; lia.
Qed.

Section Clock.

Variable t : Q.

Let a := Qfloor t.

Lemma hours_spec : hours t = (a / 3600)%Z.
Proof.
  unfold hours, Py.floordiv. rewrite Py_int_inject.
  apply (Qfloor_div_pos t 3600).
Qed.

Lemma mod_floor (k : positive) :
  Qfloor (Py.mod_ t (inject_Z (Z.pos k))) = (a mod Z.pos k)%Z.
Proof.
  unfold Py.mod_. rewrite Qfloor_div_pos, <- inject_Z_mult, Qfloor_sub_Z.
  fold a. rewrite Z.mod_eq by lia. reflexivity.
Qed.

Lemma mod_nonneg (k : positive) : 0 <= Py.mod_ t (inject_Z (Z.pos k)).
Proof.
  assert (H : (0 <= Qfloor (Py.mod_ t (inject_Z (Z.pos k))))%Z).
  { rewrite mod_floor. apply Z.mod_pos_bound. lia. }
  eapply Qle_trans; [|apply Qfloor_le].
  now rewrite <- (Zle_Qle 0).
Qed.

Lemma minutes_spec : minutes t = ((a / 60) mod 60)%Z.
Proof.
  unfold minutes, Py.floordiv. rewrite Py_int_inject.
  rewrite (Qfloor_div_pos _ 60).
  change (Py.mod_ t 3600) with (Py.mod_ t (inject_Z 3600)).
  rewrite (mod_floor 3600).
  change 3600%Z with (60 * 60)%Z.
  rewrite Z.rem_mul_r by lia.
  rewrite Z.mul_comm, Z.div_add by lia.
  rewrite Z.div_small by (apply Z.mod_pos_bound; lia). reflexivity.
Qed.

Lemma seconds_spec : seconds t = (a mod 60)%Z.
Proof.
  unfold seconds. rewrite Py_int_nonneg by apply (mod_nonneg 60).
  apply (mod_floor 60).
Qed.

End Clock.


(** ** Leader *)


Lemma key_gtb_true (a b : Z * Q) : key_gtb a b = true <-> lex_lt b a.
Proof.
  unfold key_gtb, lex_lt. destruct (Z.eqb_spec (fst a) (fst b)) as [E | E].
  - rewrite negb_true_iff. split.
    + intros H. right. split; [congruence|].
      apply Qnot_le_lt. intros H'. apply Qle_bool_iff in H'. congruence.
    + intros [H | [_ H]]; [lia|].
      destruct (Qle_bool _ _) eqn:E'; [|reflexivity].
      apply Qle_bool_iff in E'. qlra.
  - rewrite Z.ltb_lt. split; [now left|]. intros [H | [H _]]; [lia | congruence].
Qed.

Lemma key_gtb_false (a b : Z * Q) : key_gtb a b = false <-> lex_le a b.
Proof.
  unfold key_gtb, lex_le. destruct (Z.eqb_spec (fst a) (fst b)) as [E | E].
  - rewrite negb_false_iff, Qle_bool_iff. split; [now right|].
    intros [H | [_ H]]; [lia | assumption].
  - rewrite Z.ltb_ge. split; [intros H; left; lia|].
    intros [H | [H _]]; [lia | congruence].
Qed.

Lemma lex_le_refl (a : Z * Q) : lex_le a a.
Proof. right. split; [reflexivity | apply Qle_refl]. Qed.

Lemma lex_le_trans (a b c : Z * Q) : lex_le a b -> lex_le b c -> lex_le a c.
Proof.
  unfold lex_le. intros [H1 | [H1 H1']] [H2 | [H2 H2']];
    try (left; lia). right. split; [congruence | qlra].
Qed.

Lemma lex_lt_le (a b : Z * Q) : lex_lt a b -> lex_le a b.
Proof.
  unfold lex_lt, lex_le. intros [H | [H H']]; [now left|].
  right. split; [assumption | qlra].
Qed.

Lemma lex_lt_not_le (a b : Z * Q) : lex_lt a b -> ~ lex_le b a.
Proof.
  unfold lex_lt, lex_le. intros [H | [H H']] [H2 | [H2 H2']]; try lia. qlra.
Qed.

(** [max] returns an item of the dict that no item beats. *)
Lemma max_by_greatest (rest : list (string * DriverPos)) :
  forall best,
    In (max_by best rest) (best :: rest)
    /\ forall d, In d (best :: rest) ->
         lex_le (leader_key (snd d)) (leader_key (snd (max_by best rest))).
Proof.
  induction rest as [|d' rest IH]; intros best; cbn [max_by].
  - split; [now left|]. intros d [<- | []]. apply lex_le_refl.
  - destruct (key_gtb _ _) eqn:E.
    + destruct (IH d') as (Hin & Hmax). split.
      * right. exact Hin.
      * intros d [<- | Hd]; [|now apply Hmax].
        apply key_gtb_true, lex_lt_le in E.
        eapply lex_le_trans; [exact E|]. apply Hmax. now left.
    + destruct (IH best) as (Hin & Hmax). split.
      * destruct Hin as [Hin | Hin]; [now left | right; now right].
      * intros d [<- | [<- | Hd]].
        -- apply Hmax. now left.
        -- apply key_gtb_false in E.
           eapply lex_le_trans; [exact E|]. apply Hmax. now left.
        -- apply Hmax. now right.
Qed.






(** ** Missing distances *)

(** Sorting commutes with a change of the rows that keeps their keys. *)
Lemma sort_map_same_key (f : Row -> Row) :
  (forall r, board_key (f r) = board_key r) ->
  forall l, sort_by_dist_reverse (map f l) = map f (sort_by_dist_reverse l).
Proof.
  intros Hf.
  assert (Hins : forall r l, insert_row (f r) (map f l) = map f (insert_row r l)).
  { intros r l. induction l as [|r' l IH]; [reflexivity|].
    cbn [map insert_row]. rewrite !Hf.
    destruct (Qle_bool _ _); [reflexivity|]. cbn [map]. now rewrite IH. }
  induction l as [|r l IH]; [reflexivity|].
  cbn [map sort_by_dist_reverse]. now rewrite IH, Hins.
Qed.

Lemma board_codes_fill_dist (self : F1ReplayWindow) (frame : Frame) :
  board_codes self (fill_dist 999 frame) = board_codes self frame.
Proof.
  unfold board_codes, board_rows, driver_list, fill_dist. cbn [drivers].
  set (f := fun r : Row => (fst r, with_dist 999 (snd r))).
  rewrite map_map. cbn [fst snd].
  rewrite (map_ext _ (fun d => f (fst d, color_of (driver_colors self) (fst d),
                                   snd d))) by reflexivity.
  rewrite <- (map_map (fun d => (fst d, color_of (driver_colors self) (fst d),
                                 snd d)) f).
  rewrite sort_map_same_key.
  - rewrite map_map. apply map_ext. now intros [[c col] p].
  - intros [[c col] p]. unfold board_key, f. cbn.
    now destruct (dist p).
Qed.

(** The first row of a sorted list has the greatest key. *)
Lemma sorted_head_greatest (r : Row) (l : list Row) :
  StronglySorted dist_desc (r :: l) ->
  forall r', In r' (r :: l) -> board_key r' <= board_key r.
Proof.
  intros Hs r' [<- | Hr']; [apply Qle_refl|].
  inversion Hs as [|? ? _ Hall]; subst.
  rewrite Forall_forall in Hall. now apply Hall.
Qed.

Lemma sorted_suffix {A : Type} (R : A -> A -> Prop) (l1 l2 : list A) :
  StronglySorted R (l1 ++ l2) -> StronglySorted R l2.
Proof.
  induction l1 as [|a l1 IH]; cbn; [easy|].
  intros H. apply StronglySorted_inv in H. now apply IH.
Qed.

(** A row stands below rows of at least its own key only. *)
Lemma rows_above (l1 l2 : list Row) (r r' : Row) :
  StronglySorted dist_desc (l1 ++ r' :: l2) -> In r l2 ->
  board_key r <= board_key r'.
Proof.
  intros Hs Hr. apply sorted_suffix, StronglySorted_inv in Hs.
  destruct Hs as (_ & Hall). rewrite Forall_forall in Hall. now apply Hall.
Qed.

(** C10. A driver without a recorded distance is ranked as if the
    distance were 999: the leaderboard is the one of the frame with 999
    filled in, the driver's row is in it with only rows of key 999 or
    more above it, and it is the first row when every other driver has
    a distance below 999.  The leader search takes the missing distance
    as 0 (and a missing lap as 1): a driver of the frame with a greater
    [(lap, distance)] pair keeps that driver from being the leader.
    With X (no distance, lap 1) and Y (distance 500, lap 1), X tops the
    leaderboard and Y is the leader. *)
Theorem missing_distance_two_defaults
  (self : F1ReplayWindow) (frame : Frame) (c : string) (p : DriverPos) :
  In (c, p) (drivers frame) ->
  dist p = None ->
  let row := (c, color_of (driver_colors self) c, p) in
  board_key row = 999
  /\ board_codes self (fill_dist 999 frame) = board_codes self frame
  /\ In row (board_rows self frame)
  /\ (forall l1 r' l2,
        board_rows self frame = l1 ++ r' :: l2 -> In row l2 ->
        999 <= board_key r')
  /\ ((forall c' p', In (c', p') (drivers frame) ->
         (c', p') = (c, p) \/ exists d, dist p' = Some d /\ d < 999) ->
      exists rest, board_rows self frame = row :: rest)
  /\ leader_key p = (get (lap p) 1%Z, 0)
  /\ (lap p = None -> leader_key p = (1%Z, 0))
  /\ (forall c' p', In (c', p') (drivers frame) ->
        lex_lt (leader_key p) (leader_key p') ->
        forall code pos, leader frame = Ok (code, pos) ->
          lex_lt (leader_key p) (leader_key pos) /\ pos <> p)
  /\ (board_codes self frame_no_dist = ["X"; "Y"]%string
      /\ leader_code frame_no_dist = Ok "Y"%string).
Proof.
  intros Hin Hd row.
  assert (Hkey : board_key row = 999).
  { unfold board_key, row. cbn. now rewrite Hd. }
  assert (Hrow : In row (board_rows self frame)).
  { apply (Permutation_in _ (Permutation_sym (sort_perm _))).
    unfold driver_list. apply in_map_iff. now exists (c, p). }
  split; [exact Hkey|].
  split; [apply board_codes_fill_dist|].
  split; [exact Hrow|].
  split.
  { intros l1 r' l2 El Hr. rewrite <- Hkey.
    apply (rows_above l1 l2); [|assumption].
    rewrite <- El. apply sort_sorted. }
  split.
  { intros Hothers. unfold board_rows in *.
    assert (Hs := sort_sorted (driver_list self frame)).
    destruct (sort_by_dist_reverse (driver_list self frame)) as [|r rest] eqn:E;
      [destruct Hrow|].
    exists rest. f_equal.
    assert (Hge : 999 <= board_key r).
    { rewrite <- Hkey. now apply (sorted_head_greatest r rest). }
    assert (Hr : In r (driver_list self frame)).
    { apply (Permutation_in _ (sort_perm _)). rewrite E. now left. }
    unfold driver_list in Hr. apply in_map_iff in Hr.
    destruct Hr as ([c' p'] & <- & Hin').
    destruct (Hothers c' p' Hin') as [Eq | (d & Ed & Hlt)].
    - now injection Eq as -> ->.
    - exfalso. unfold board_key in Hge. cbn in Hge. rewrite Ed in Hge.
      cbn in Hge. qlra. }
  split; [unfold leader_key; now rewrite Hd|].
  split; [intros Hl; unfold leader_key; now rewrite Hd, Hl|].
  split; [|split; reflexivity].
  intros c' p' Hin' Hlt code pos Hl.
  unfold leader in Hl. destruct (drivers frame) as [|d rest]; [discriminate|].
  injection Hl as Hl.
  destruct (max_by_greatest rest d) as (_ & Hmax).
  specialize (Hmax (c', p') Hin'). rewrite Hl in Hmax. cbn [snd] in Hmax.
  assert (Hlt' : lex_lt (leader_key p) (leader_key pos)).
  { unfold lex_lt, lex_le in *.
    destruct Hlt as [H | [H H']], Hmax as [H2 | [H2 H2']];
      try (left; lia). right. split; [congruence | qlra]. }
  split; [exact Hlt'|].
  intros ->. apply (lex_lt_not_le _ _ Hlt'), lex_le_refl.
Qed.

Lemma missing_distance_two_defaults_witness :
  board_key ("X"%string, color.WHITE, driver_no_dist) = 999
  /\ (exists rest,
        board_rows window0 frame_no_dist
        = ("X"%string, color.WHITE, driver_no_dist) :: rest)
  /\ (forall code pos, leader frame_no_dist = Ok (code, pos) ->
        pos <> driver_no_dist).
Proof.
  destruct (missing_distance_two_defaults window0 frame_no_dist
              "X" driver_no_dist (or_introl eq_refl) eq_refl)
    as (Hk & _ & _ & _ & Htop & _ & _ & Hlead & _).
  split; [exact Hk|]. split.
  - apply Htop. intros c' p' [E | [E | []]].
    + left. now symmetry.
    + right. exists 500. injection E as <- <-. split; reflexivity.
  - intros code pos Hl.
    apply (Hlead "Y"%string driver_500 (or_intror (or_introl eq_refl))
             ltac:(right; split; reflexivity) code pos Hl).
Defined.

(** ** Track geometry *)

Module TrackFacts.

Import Track.
Local Open Scope R_scope.

Lemma zip_with_length {A B C : Type} (f : A -> B -> C) (l : list A) :
  forall l', List.length (zip_with f l l')
             = Nat.min (List.length l) (List.length l').
Proof.
  induction l as [|a l IH]; intros [|b l']; cbn; try reflexivity.
  now rewrite IH.
Qed.

Lemma zip_with_nth {A B C : Type} (f : A -> B -> C) (da : A) (db : B) (dc : C)
  (l : list A) :
  forall l' i,
    (i < List.length l)%nat -> (i < List.length l')%nat ->
    nth i (zip_with f l l') dc = f (nth i l da) (nth i l' db).
Proof.
  induction l as [|a l IH]; intros [|b l'] i Hl Hl'; cbn in *; try lia.
  destruct i as [|i]; [reflexivity|]. apply IH; lia.
Qed.

Lemma gradient_ok (f : list R) :
  (2 <= List.length f)%nat ->
  gradient f = Ok (map (gradient_at f) (seq 0 (List.length f))).
Proof.
  intros H. unfold gradient.
  destruct (Nat.ltb_spec (List.length f) 2); [lia | reflexivity].
Qed.

Lemma gradient_short (f : list R) :
  (List.length f < 2)%nat -> gradient f = Raise ValueError.
Proof.
  intros H. unfold gradient.
  destruct (Nat.ltb_spec (List.length f) 2); [reflexivity | lia].
Qed.

Lemma guard_norm_nonzero (n : R) : guard_norm n <> 0.
Proof. unfold guard_norm. destruct (Req_dec_T n 0); lra. Qed.

Lemma div_arrays_ok (l l' : list R) :
  Forall (fun b => b <> 0) l' ->
  div_arrays l l' = Ok (zip_with Rdiv l l').
Proof.
  revert l'. induction l as [|a l IH]; intros [|b l'] H; try reflexivity.
  inversion H as [|? ? Hb Hl']; subst.
  cbn [div_arrays zip_with]. unfold div.
  destruct (Req_dec_T b 0); [contradiction|].
  cbn [bind]. now rewrite (IH l' Hl').
Qed.

(** No division of the builder meets a zero divisor. *)
Lemma div_arrays_guarded (l norm : list R) :
  div_arrays l (map guard_norm norm)
  = Ok (zip_with Rdiv l (map guard_norm norm)).
Proof.
  apply div_arrays_ok. rewrite Forall_forall. intros b Hb.
  apply in_map_iff in Hb. destruct Hb as (n & <- & _).
  apply guard_norm_nonzero.
Qed.

Lemma amin_ok (l : list R) :
  (0 < List.length l)%nat -> exists v, amin l = Ok v.
Proof. destruct l; cbn; [lia | eauto]. Qed.

Lemma amax_ok (l : list R) :
  (0 < List.length l)%nat -> exists v, amax l = Ok v.
Proof. destruct l; cbn; [lia | eauto]. Qed.

Ltac lengths :=
  rewrite ?zip_with_length, ?length_map, ?zip_with_length, ?length_map,
    ?zip_with_length, ?length_map, ?length_seq, ?length_map;
  lia.

Section Builder.

Variable example_lap : list (R * R).
Variable track_width : R.

Let xs := map fst example_lap.
Let ys := map snd example_lap.
Let n := List.length example_lap.
Let gx := map (gradient_at xs) (seq 0 n).
Let gy := map (gradient_at ys) (seq 0 n).
Let norm := map guard_norm (zip_with (fun a b => sqrt (a ^ 2 + b ^ 2)) gx gy).
Let dx := zip_with Rdiv gx norm.
Let dy := zip_with Rdiv gy norm.

Lemma tangents_ok : (2 <= n)%nat -> tangents xs ys = Ok (dx, dy).
Proof.
  intros Hn. unfold tangents.
  rewrite !gradient_ok by (unfold xs, ys; rewrite length_map; exact Hn).
  cbn [bind]. unfold xs, ys. rewrite !length_map. fold xs ys n gx gy.
  now rewrite !div_arrays_guarded.
Qed.

Lemma tangents_short : (n < 2)%nat -> tangents xs ys = Raise ValueError.
Proof.
  intros Hn. unfold tangents.
  now rewrite gradient_short by (unfold xs; rewrite length_map; exact Hn).
Qed.

Lemma tangent_nth (i : nat) :
  (i < n)%nat ->
  (- nth i dy 0, nth i dx 0) = normal_at example_lap i.
Proof.
  intros Hi. unfold normal_at, tangent_at. cbn [fst snd]. fold xs ys.
  assert (Hgx : nth i gx 0 = gradient_at xs i).
  { unfold gx. rewrite (nth_indep _ 0 (gradient_at xs 0))
      by (rewrite length_map, length_seq; exact Hi).
    rewrite map_nth, seq_nth by exact Hi. reflexivity. }
  assert (Hgy : nth i gy 0 = gradient_at ys i).
  { unfold gy. rewrite (nth_indep _ 0 (gradient_at ys 0))
      by (rewrite length_map, length_seq; exact Hi).
    rewrite map_nth, seq_nth by exact Hi. reflexivity. }
  assert (Hnorm : nth i norm 0
                  = guard_norm (sqrt (gradient_at xs i ^ 2
                                      + gradient_at ys i ^ 2))).
  { unfold norm.
    rewrite (nth_indep _ 0 (guard_norm 0))
      by (unfold gx, gy; lengths).
    rewrite map_nth.
    rewrite (zip_with_nth _ 0 0) by (unfold gx, gy; lengths).
    now rewrite Hgx, Hgy. }
  unfold dx, dy.
  rewrite !(zip_with_nth Rdiv 0 0) by (unfold norm, gx, gy; lengths).
  now rewrite Hgx, Hgy, Hnorm.
Qed.

(** The builder succeeds on a lap of two samples or more, and its
    boundaries are the samples moved along the normals. *)
Lemma build_track_ok :
  (2 <= n)%nat ->
  exists g,
    build_track_from_example_lap example_lap track_width = Ok g
    /\ plot_x_ref g = xs /\ plot_y_ref g = ys
    /\ List.length (x_inner g) = n /\ List.length (y_inner g) = n
    /\ List.length (x_outer g) = n /\ List.length (y_outer g) = n
    /\ forall i, (i < n)%nat ->
         let c := point_at xs ys i in
         let nrm := normal_at example_lap i in
         point_at (x_outer g) (y_outer g) i
         = (fst c + fst nrm * (track_width / 2),
            snd c + snd nrm * (track_width / 2))
         /\ point_at (x_inner g) (y_inner g) i
            = (fst c - fst nrm * (track_width / 2),
               snd c - snd nrm * (track_width / 2)).
Proof.
  intros Hn. unfold build_track_from_example_lap. fold xs ys.
  rewrite (tangents_ok Hn). cbn [bind fst snd].
  repeat match goal with
    | |- context [amin ?l] =>
        let v := fresh "v" in
        destruct (amin_ok l) as (v & ->);
        [unfold xs, ys, dx, dy, norm, gx, gy; lengths | cbn [bind]]
    | |- context [amax ?l] =>
        let v := fresh "v" in
        destruct (amax_ok l) as (v & ->);
        [unfold xs, ys, dx, dy, norm, gx, gy; lengths | cbn [bind]]
    end.
  eexists. split; [reflexivity|]. cbn [plot_x_ref plot_y_ref x_inner
    y_inner x_outer y_outer].
  split; [reflexivity|]. split; [reflexivity|].
  do 4 (split; [unfold xs, ys, dx, dy, norm, gx, gy; lengths|]).
  intros i Hi. set (nrm := normal_at example_lap i). unfold point_at.
  cbn [fst snd].
  rewrite !(zip_with_nth _ 0 0)
    by (unfold xs, ys, dx, dy, norm, gx, gy; lengths).
  assert (E := tangent_nth i Hi). fold nrm in E.
  rewrite (nth_indep (map Ropp dy) 0 (- 0))
    by (unfold dy, norm, gx, gy; lengths).
  rewrite map_nth.
  assert (E1 : - nth i dy 0 = fst nrm) by now rewrite <- E.
  assert (E2 : nth i dx 0 = snd nrm) by now rewrite <- E.
  rewrite E1, E2. split; reflexivity.
Qed.

Lemma build_track_short :
  (n < 2)%nat ->
  build_track_from_example_lap example_lap track_width = Raise ValueError.
Proof.
  intros Hn. unfold build_track_from_example_lap. fold xs ys.
  now rewrite (tangents_short Hn).
Qed.

End Builder.

(** *** Normals and distances *)

Lemma normal_unit (example_lap : list (R * R)) (i : nat) :
  tangent_at example_lap i <> (0, 0) ->
  fst (normal_at example_lap i) ^ 2 + snd (normal_at example_lap i) ^ 2 = 1.
Proof.
  unfold normal_at. destruct (tangent_at example_lap i) as [a b].
  cbn [fst snd]. intros Hne.
  assert (Hpos : 0 < a ^ 2 + b ^ 2).
  { destruct (Req_dec a 0) as [-> | Ha].
    - destruct (Req_dec b 0) as [-> | Hb]; [now contradiction Hne|]. nra.
    - nra. }
  assert (Hs : 0 < sqrt (a ^ 2 + b ^ 2)) by now apply sqrt_lt_R0.
  assert (Hsq : sqrt (a ^ 2 + b ^ 2) * sqrt (a ^ 2 + b ^ 2) = a ^ 2 + b ^ 2)
    by (apply sqrt_sqrt; lra).
  unfold guard_norm. destruct (Req_dec_T _ 0) as [E | _]; [lra|].
  set (s := sqrt (a ^ 2 + b ^ 2)) in *.
  replace ((- (b / s)) ^ 2 + (a / s) ^ 2) with ((a ^ 2 + b ^ 2) / (s * s))
    by (field; lra).
  rewrite Hsq. field. lra.
Qed.

Lemma normal_zero (example_lap : list (R * R)) (i : nat) :
  tangent_at example_lap i = (0, 0) -> normal_at example_lap i = (0, 0).
Proof.
  unfold normal_at. intros ->. cbn [fst snd].
  replace (0 ^ 2 + 0 ^ 2) with 0 by ring. rewrite sqrt_0.
  unfold guard_norm. destruct (Req_dec_T 0 0) as [_ | H]; [|contradiction].
  f_equal; field.
Qed.

(** A point moved by [h] along a vector lies [|h|] times the length of
    the vector away. *)
Lemma offset_distance (c v : R * R) (h : R) :
  0 <= h ->
  fst v ^ 2 + snd v ^ 2 = 1 ->
  distance (fst c + fst v * h, snd c + snd v * h) c = h
  /\ distance (fst c - fst v * h, snd c - snd v * h) c = h.
Proof.
  intros Hh Hv. unfold distance. cbn [fst snd].
  assert (E : forall e, e = h ^ 2 * (fst v ^ 2 + snd v ^ 2) -> sqrt e = h).
  { intros e ->. rewrite Hv, Rmult_1_r. now apply sqrt_pow2. }
  split; apply E; ring.
Qed.

Lemma offset_none (c : R * R) (h : R) :
  (fst c + fst (0, 0) * h, snd c + snd (0, 0) * h) = c
  /\ (fst c - fst (0, 0) * h, snd c - snd (0, 0) * h) = c.
Proof. destruct c as [a b]. cbn [fst snd]. split; f_equal; ring. Qed.

(** *** Resampling *)

Lemma linspace01_length (num : nat) : List.length (linspace01 num) = num.
Proof.
  destruct num as [|[|num]]; try reflexivity.
  unfold linspace01. now rewrite length_map, length_seq.
Qed.

Lemma interp_length (xs xp fp l : list R) :
  interp xs xp fp = Ok l -> List.length l = List.length xs.
Proof.
  unfold interp. destruct (negb _); [discriminate|].
  destruct (combine xp fp) as [|[x0 f0] rest]; [discriminate|].
  intros H. injection H as <-. apply length_map.
Qed.

Lemma interp_ok (xs xp fp : list R) :
  List.length xp = List.length fp -> (0 < List.length fp)%nat ->
  exists x0 f0 xr fr,
    xp = x0 :: xr /\ fp = f0 :: fr
    /\ interp xs xp fp
       = Ok (map (fun x => if Rle_dec x x0 then f0
                           else interp_from x x0 f0 (combine xr fr)) xs).
Proof.
  intros Hlen Hpos. unfold interp.
  rewrite Hlen, Nat.eqb_refl. cbn [negb].
  destruct xp as [|x0 xr], fp as [|f0 fr]; cbn in *; try lia.
  now exists x0, f0, xr, fr.
Qed.

(** [np.interp] blends the two ordinates around the abscissa; where
    and how much is a matter of the abscissas alone. *)
Lemma interp_from_locate (x : R) (xr : list R) :
  forall x0 f0 fr,
    List.length xr = List.length fr ->
    interp_from x x0 f0 (combine xr fr)
    = nth (fst (locate x x0 xr)) (f0 :: fr) 0
      + snd (locate x x0 xr)
        * (nth (S (fst (locate x x0 xr))) (f0 :: fr) 0
           - nth (fst (locate x x0 xr)) (f0 :: fr) 0).
Proof.
  induction xr as [|x1 xr IH]; intros x0 f0 [|f1 fr] Hlen;
    try discriminate Hlen.
  - cbn. ring.
  - cbn [combine interp_from locate].
    destruct (Rlt_dec x x1).
    + cbn [fst snd nth]. unfold Rdiv. ring.
    + cbn [fst snd]. rewrite (IH x1 f1 fr) by (cbn in Hlen; lia).
      reflexivity.
Qed.

Lemma locate_bounds (x : R) (xr : list R) :
  forall x0, x0 <= x ->
    (fst (locate x x0 xr) <= List.length xr)%nat
    /\ 0 <= snd (locate x x0 xr) < 1
    /\ (snd (locate x x0 xr) = 0
        \/ (fst (locate x x0 xr) < List.length xr)%nat).
Proof.
  induction xr as [|x1 xr IH]; intros x0 Hx; cbn [locate].
  - cbn. split; [lia|]. split; [lra | now left].
  - destruct (Rlt_dec x x1) as [Hlt | Hge]; cbn [fst snd List.length].
    + split; [lia|]. split; [|right; lia].
      split.
      * apply Rmult_le_pos; [lra|]. apply Rlt_le, Rinv_0_lt_compat. lra.
      * apply Rmult_lt_reg_r with (x1 - x0); [lra|].
        unfold Rdiv. rewrite Rmult_assoc, Rinv_l by lra. lra.
    + destruct (IH x1 ltac:(lra)) as (Hj & Hl & Hend).
      split; [lia|]. split; [exact Hl|].
      destruct Hend as [E | E]; [now left | right; lia].
Qed.

(** Every resampled point lies on a segment between two consecutive
    points of the curve (or is one of its points). *)
Lemma interpolate_points_ok (xs ys : list R) (interp_points : nat) :
  List.length xs = List.length ys -> (0 < List.length xs)%nat ->
  exists pts,
    _interpolate_points xs ys interp_points = Ok pts
    /\ List.length pts = interp_points
    /\ forall k, (k < interp_points)%nat ->
         exists j l,
           (j < List.length xs)%nat
           /\ 0 <= l < 1
           /\ (l = 0 \/ (S j < List.length xs)%nat)
           /\ nth k pts (0, 0)
              = lerp (point_at xs ys j) (point_at xs ys (S j)) l.
Proof.
  intros Hlen Hpos. unfold _interpolate_points.
  set (t_new := linspace01 interp_points).
  assert (Hnew : List.length t_new = interp_points)
    by apply linspace01_length.
  destruct (interp_ok t_new (linspace01 (List.length xs)) xs)
    as (x0 & f0 & xr & fr & Et & Ex & ->);
    [apply linspace01_length | exact Hpos |].
  destruct (interp_ok t_new (linspace01 (List.length xs)) ys)
    as (x0' & g0 & xr' & gr & Et' & Ey & ->);
    [rewrite linspace01_length; exact Hlen | lia |].
  rewrite Et in Et'. injection Et' as <- <-.
  assert (Hxr : List.length xr = List.length fr).
  { assert (H := linspace01_length (List.length xs)).
    rewrite Et in H. rewrite Ex in H. cbn in H. lia. }
  assert (Hgr : List.length xr = List.length gr).
  { rewrite Hxr. rewrite Ex, Ey in Hlen. cbn in Hlen. lia. }
  cbn [bind]. eexists. split; [reflexivity|].
  split; [rewrite length_combine, !length_map; lia|].
  intros k Hk.
  set (Fx := fun x => if Rle_dec x x0 then f0
                      else interp_from x x0 f0 (combine xr fr)).
  set (Fy := fun x => if Rle_dec x x0 then g0
                      else interp_from x x0 g0 (combine xr gr)).
  rewrite combine_nth by now rewrite !length_map.
  rewrite (nth_indep (map Fx t_new) 0 (Fx 0)) by (rewrite length_map; lia).
  rewrite (nth_indep (map Fy t_new) 0 (Fy 0)) by (rewrite length_map; lia).
  rewrite !map_nth.
  set (tk := nth k t_new 0). unfold Fx, Fy, lerp, point_at. cbn [fst snd].
  destruct (Rle_dec tk x0) as [Hle | Hgt].
  - exists 0%nat, 0. split; [exact Hpos|]. split; [lra|].
    split; [now left|]. rewrite Ex, Ey. cbn [nth]. f_equal; ring.
  - destruct (locate_bounds tk xr x0 ltac:(lra)) as (Hj & Hl & Hend).
    exists (fst (locate tk x0 xr)), (snd (locate tk x0 xr)).
    rewrite Ex at 1 2. cbn [List.length].
    split; [lia|]. split; [exact Hl|].
    split; [destruct Hend as [E | E]; [now left | right; lia]|].
    rewrite (interp_from_locate tk xr x0 f0 fr Hxr).
    rewrite (interp_from_locate tk xr x0 g0 gr Hgr).
    now rewrite Ex, Ey.
Qed.

Lemma point_at_lap (example_lap : list (R * R)) (i : nat) :
  point_at (map fst example_lap) (map snd example_lap) i
  = nth i example_lap (0, 0).
Proof.
  unfold point_at.
  change (nth i (map fst example_lap) 0)
    with (nth i (map fst example_lap) (fst (0, 0))).
  change (nth i (map snd example_lap) 0)
    with (nth i (map snd example_lap) (snd (0, 0))).
  rewrite !map_nth. now destruct (nth i example_lap (0, 0)).
Qed.

Lemma boundaries_ok (example_lap : list (R * R)) (track_width : R)
  (interp_points : nat) (g : TrackGeometry) :
  build_track_from_example_lap example_lap track_width = Ok g ->
  List.length (x_inner g) = List.length example_lap ->
  List.length (y_inner g) = List.length example_lap ->
  List.length (x_outer g) = List.length example_lap ->
  List.length (y_outer g) = List.length example_lap ->
  (0 < List.length example_lap)%nat ->
  exists inner outer,
    boundaries example_lap track_width interp_points = Ok (inner, outer)
    /\ _interpolate_points (x_inner g) (y_inner g) interp_points = Ok inner
    /\ _interpolate_points (x_outer g) (y_outer g) interp_points = Ok outer.
Proof.
  intros Hg Hxi Hyi Hxo Hyo Hpos. unfold boundaries. rewrite Hg. cbn [bind].
  destruct (interpolate_points_ok (x_inner g) (y_inner g) interp_points)
    as (inner & -> & _); [lia | lia |].
  destruct (interpolate_points_ok (x_outer g) (y_outer g) interp_points)
    as (outer & -> & _); [lia | lia |].
  cbn [bind]. now exists inner, outer.
Qed.

(** C2 (as the code has it). On a lap of two samples or more the
    builder and the resampler succeed, and the inner and the outer
    boundary have as many points as the resample resolution (2000 by
    default).  Before resampling, boundary point [i] is sample [i] of
    the lap moved by half the track width (100 for the default width
    of 200) along the normal, the central-difference tangent over its
    guarded norm turned by a quarter: at distance [track_width / 2]
    from the sample where the tangent is not zero, on the sample
    where it is.  Every resampled point lies on the segment between
    two consecutive such points. *)
Theorem boundaries_half_width_away
  (example_lap : list (R * R)) (track_width : R) (interp_points : nat) :
  (2 <= List.length example_lap)%nat ->
  0 <= track_width ->
  exists g inner outer,
    build_track_from_example_lap example_lap track_width = Ok g
    /\ boundaries example_lap track_width interp_points = Ok (inner, outer)
    /\ List.length inner = interp_points
    /\ List.length outer = interp_points
    /\ (forall i, (i < List.length example_lap)%nat ->
          let c := nth i example_lap (0, 0) in
          let nrm := normal_at example_lap i in
          let p_in := point_at (x_inner g) (y_inner g) i in
          let p_out := point_at (x_outer g) (y_outer g) i in
          p_out = (fst c + fst nrm * (track_width / 2),
                   snd c + snd nrm * (track_width / 2))
          /\ p_in = (fst c - fst nrm * (track_width / 2),
                     snd c - snd nrm * (track_width / 2))
          /\ (tangent_at example_lap i <> (0, 0) ->
              fst nrm ^ 2 + snd nrm ^ 2 = 1
              /\ distance p_in c = track_width / 2
              /\ distance p_out c = track_width / 2)
          /\ (tangent_at example_lap i = (0, 0) -> p_in = c /\ p_out = c))
    /\ (forall k, (k < interp_points)%nat ->
          exists j l,
            (j < List.length example_lap)%nat /\ 0 <= l < 1
            /\ (l = 0 \/ (S j < List.length example_lap)%nat)
            /\ nth k inner (0, 0)
               = lerp (point_at (x_inner g) (y_inner g) j)
                      (point_at (x_inner g) (y_inner g) (S j)) l)
    /\ (forall k, (k < interp_points)%nat ->
          exists j l,
            (j < List.length example_lap)%nat /\ 0 <= l < 1
            /\ (l = 0 \/ (S j < List.length example_lap)%nat)
            /\ nth k outer (0, 0)
               = lerp (point_at (x_outer g) (y_outer g) j)
                      (point_at (x_outer g) (y_outer g) (S j)) l)
    /\ default_track_width / 2 = 100
    /\ default_interp_points = 2000%nat.
Proof.
  intros Hn Hw.
  destruct (build_track_ok example_lap track_width Hn)
    as (g & Hg & _ & _ & Hxi & Hyi & Hxo & Hyo & Hpts).
  destruct (boundaries_ok example_lap track_width interp_points g Hg
              Hxi Hyi Hxo Hyo ltac:(lia))
    as (inner & outer & Hb & Hin & Hout).
  destruct (interpolate_points_ok (x_inner g) (y_inner g) interp_points)
    as (inner' & Hin' & Hlin & Hsegin); [lia | lia |].
  destruct (interpolate_points_ok (x_outer g) (y_outer g) interp_points)
    as (outer' & Hout' & Hlout & Hsegout); [lia | lia |].
  rewrite Hin in Hin'. injection Hin' as <-.
  rewrite Hout in Hout'. injection Hout' as <-.
  rewrite Hxi in Hsegin. rewrite Hxo in Hsegout.
  exists g, inner, outer.
  split; [exact Hg|]. split; [exact Hb|].
  split; [exact Hlin|]. split; [exact Hlout|].
  split.
  { intros i Hi. cbv zeta.
    destruct (Hpts i Hi) as (Eo & Ei). rewrite point_at_lap in Eo, Ei.
    split; [exact Eo|]. split; [exact Ei|]. split.
    - intros Ht. assert (Hu := normal_unit example_lap i Ht).
      split; [exact Hu|]. rewrite Eo, Ei.
      destruct (offset_distance (nth i example_lap (0, 0))
                  (normal_at example_lap i) (track_width / 2)
                  ltac:(lra) Hu) as (Ho' & Hi').
      split; assumption.
    - intros Ht. rewrite Eo, Ei, (normal_zero example_lap i Ht).
      destruct (offset_none (nth i example_lap (0, 0)) (track_width / 2))
        as (Ho' & Hi').
      split; assumption. }
  split; [exact Hsegin|]. split; [exact Hsegout|].
  split; [unfold default_track_width; lra | reflexivity].
Qed.

Lemma boundaries_half_width_away_witness :
  exists g inner outer,
    build_track_from_example_lap straight_lap default_track_width = Ok g
    /\ boundaries straight_lap default_track_width default_interp_points
       = Ok (inner, outer)
    /\ List.length inner = 2000%nat
    /\ List.length outer = 2000%nat.
Proof.
  destruct (boundaries_half_width_away straight_lap default_track_width
              default_interp_points
              ltac:(cbn; lia) ltac:(unfold default_track_width; lra))
    as (g & inner & outer & Hg & Hb & Hin & Hout & _).
  exists g, inner, outer. exact (conj Hg (conj Hb (conj Hin Hout))).
Defined.

(** *** The straight lap *)

Lemma normal_of_tangent_along_x (a b : R) :
  a = 10 -> b = 0 ->
  (- (b / guard_norm (sqrt (a ^ 2 + b ^ 2))),
   a / guard_norm (sqrt (a ^ 2 + b ^ 2))) = (0, 1).
Proof.
  intros -> ->. replace (10 ^ 2 + 0 ^ 2) with (10 ^ 2) by ring.
  rewrite sqrt_pow2 by lra. unfold guard_norm.
  destruct (Req_dec_T 10 0); [lra|]. f_equal; field.
Qed.

Lemma straight_lap_normals (i : nat) :
  (i < 3)%nat -> normal_at straight_lap i = (0, 1).
Proof.
  intros Hi. destruct i as [|[|[|i]]]; [| | |lia];
    unfold normal_at, tangent_at, gradient_at, straight_lap;
    cbn [map fst snd List.length Nat.eqb Nat.sub Nat.add nth];
    apply normal_of_tangent_along_x; lra.
Qed.

Lemma straight_lap_samples (i : nat) :
  (i < 3)%nat ->
  snd (nth i straight_lap (0, 0)) = 0
  /\ 0 <= fst (nth i straight_lap (0, 0)) <= 20
  /\ ((S i < 3)%nat ->
      fst (nth (S i) straight_lap (0, 0))
      = fst (nth i straight_lap (0, 0)) + 10
      /\ fst (nth i straight_lap (0, 0)) <= 10).
Proof.
  intros Hi. destruct i as [|[|[|i]]]; [| | |lia]; cbn; repeat split;
    try lra; try lia.
Qed.

Lemma sqrt_below (e b : R) : 0 <= e < b ^ 2 -> 0 < b -> sqrt e < b.
Proof.
  intros He Hb. rewrite <- (sqrt_pow2 b) by lra.
  now apply sqrt_lt_1_alt.
Qed.

(** With the default width of 200 the boundaries of the straight lap
    run 100 units from the centre line, not 200: the three points of
    each boundary are 100 units from their samples, and no resampled
    point is as far as 102 units from any sample.  A lap of one sample
    has no boundary at all: [np.gradient] raises. *)
Lemma default_boundaries_100_away :
  (exists g inner outer,
     build_track_from_example_lap straight_lap default_track_width = Ok g
     /\ boundaries straight_lap default_track_width default_interp_points
        = Ok (inner, outer)
     /\ (forall i, (i < 3)%nat ->
           distance (point_at (x_inner g) (y_inner g) i)
                    (nth i straight_lap (0, 0)) = 100
           /\ distance (point_at (x_outer g) (y_outer g) i)
                       (nth i straight_lap (0, 0)) = 100)
     /\ (forall k c, (k < 2000)%nat -> In c straight_lap ->
           distance (nth k inner (0, 0)) c < 102))
  /\ boundaries single_sample_lap default_track_width default_interp_points
     = Raise ValueError.
Proof.
  split.
  2:{ unfold boundaries.
      now rewrite build_track_short by (cbn; lia). }
  destruct (build_track_ok straight_lap default_track_width
              ltac:(cbn; lia))
    as (g & Hg & _ & _ & Hxi & Hyi & Hxo & Hyo & Hpts).
  change (List.length straight_lap) with 3%nat in *.
  destruct (boundaries_ok straight_lap default_track_width
              default_interp_points g Hg Hxi Hyi Hxo Hyo ltac:(cbn; lia))
    as (inner & outer & Hb & Hin & Hout).
  destruct (interpolate_points_ok (x_inner g) (y_inner g)
              default_interp_points)
    as (inner' & Hin' & _ & Hseg); [lia | lia |].
  rewrite Hin in Hin'. injection Hin' as <-. rewrite Hxi in Hseg.
  assert (Hoff : forall i, (i < 3)%nat ->
            point_at (x_inner g) (y_inner g) i
            = (fst (nth i straight_lap (0, 0)), -100)
            /\ point_at (x_outer g) (y_outer g) i
               = (fst (nth i straight_lap (0, 0)), 100)).
  { intros i Hi. destruct (Hpts i Hi) as (Eo & Ei).
    rewrite point_at_lap, (straight_lap_normals i Hi) in Eo, Ei.
    destruct (straight_lap_samples i Hi) as (Ey & _).
    rewrite Eo, Ei, Ey. cbn [fst snd]. unfold default_track_width.
    split; f_equal; lra. }
  exists g, inner, outer.
  split; [exact Hg|]. split; [exact Hb|]. split.
  - intros i Hi. destruct (Hoff i Hi) as (-> & ->).
    destruct (straight_lap_samples i Hi) as (Ey & _).
    unfold distance. cbn [fst snd]. rewrite Ey.
    split.
    + replace (_ + _) with (100 ^ 2) by ring. apply sqrt_pow2. lra.
    + replace (_ + _) with (100 ^ 2) by ring. apply sqrt_pow2. lra.
  - intros k c Hk Hc.
    destruct (Hseg k Hk) as (j & l & Hj & Hl & Hend & Ek).
    destruct (Hoff j Hj) as (Ej & _).
    destruct (straight_lap_samples j Hj) as (_ & Hxj & Hnext).
    assert (Hp : exists px, nth k inner (0, 0) = (px, -100) /\ 0 <= px <= 20).
    { rewrite Ek, Ej. unfold lerp. cbn [fst snd].
      destruct Hend as [-> | HS].
      - eexists. split; [f_equal; ring | lra].
      - destruct (Hoff (S j) HS) as (-> & _). cbn [fst snd].
        destruct (Hnext HS) as (-> & Hten).
        eexists. split; [f_equal; ring | nra]. }
    destruct Hp as (px & -> & Hpx).
    unfold distance. cbn [fst snd]. apply sqrt_below; [|lra].
    destruct Hc as [<- | [<- | [<- | []]]]; cbn [fst snd]; nra.
Qed.

End TrackFacts.

(** ** Division by zero *)

Lemma guard_norm_cases (n : R) :
  (n = 0%R -> Track.guard_norm n = 1%R)
  /\ (n <> 0%R -> Track.guard_norm n = n).
Proof.
  unfold Track.guard_norm.
  destruct (Req_dec_T n 0); split; intros H; congruence.
Qed.

Lemma build_track_never_divides_by_zero (lap : list (R * R)) (w : R) :
  Track.build_track_from_example_lap lap w <> Raise ZeroDivisionError.
Proof.
  destruct (le_lt_dec 2 (List.length lap)) as [H | H].
  - destruct (TrackFacts.build_track_ok lap w H) as (g & -> & _).
    discriminate.
  - rewrite (TrackFacts.build_track_short lap w H). discriminate.
Qed.

(** C8 (as the code has it). Neither operation divides by zero: a
    tangent norm of zero is replaced by 1 before the tangents are
    divided by their norms, and the world extents are floored to 1
    before the fit scales are computed.  The viewport recomputation
    succeeds on every window and every screen size; the track
    construction succeeds on every lap of two samples or more. *)
Theorem no_division_by_zero
  (example_lap : list (R * R)) (track_width : R)
  (self : F1ReplayWindow) (screen_w screen_h : Q) :
  (2 <= List.length example_lap)%nat ->
  (exists g,
     Track.build_track_from_example_lap example_lap track_width = Ok g)
  /\ (forall lap w,
        Track.build_track_from_example_lap lap w <> Raise ZeroDivisionError)
  /\ (forall n, Track.guard_norm n <> 0%R
                /\ (n = 0%R -> Track.guard_norm n = 1%R)
                /\ (n <> 0%R -> Track.guard_norm n = n))
  /\ (forall l norm,
        Track.div_arrays l (map Track.guard_norm norm)
        = Ok (Track.zip_with Rdiv l (map Track.guard_norm norm)))
  /\ (1 <= Py.max 1 (x_max self - x_min self))%Q
  /\ (1 <= Py.max 1 (y_max self - y_min self))%Q
  /\ (exists self', update_scaling self screen_w screen_h = Ok self').
Proof.
  intros Hn.
  split.
  { destruct (TrackFacts.build_track_ok example_lap track_width Hn)
      as (g & Hg & _). now exists g. }
  split; [apply build_track_never_divides_by_zero|].
  split.
  { intros n. split; [apply TrackFacts.guard_norm_nonzero|].
    apply guard_norm_cases. }
  split; [apply TrackFacts.div_arrays_guarded|].
  split; [apply Py_max_lower|]. split; [apply Py_max_lower|].
  exists (rescaled self screen_w screen_h). apply update_scaling_ok.
Qed.

Lemma no_division_by_zero_witness :
  (exists g,
     Track.build_track_from_example_lap Track.straight_lap
       Track.default_track_width = Ok g)
  /\ (exists self', update_scaling window_track 1920 1200 = Ok self').
Proof.
  destruct (no_division_by_zero Track.straight_lap Track.default_track_width
              window_track 1920 1200 ltac:(cbn; lia))
    as (Hg & _ & _ & _ & _ & _ & Hs).
  exact (conj Hg Hs).
Defined.

(** The track construction is not total on every non-empty lap: on a
    lap of one sample [np.gradient] raises [ValueError]. *)
Lemma single_sample_lap_raises :
  Track.single_sample_lap <> []
  /\ Track.build_track_from_example_lap Track.single_sample_lap
       Track.default_track_width = Raise ValueError
  /\ forall g,
       Track.build_track_from_example_lap Track.single_sample_lap
         Track.default_track_width <> Ok g.
Proof.
  assert (E : Track.build_track_from_example_lap Track.single_sample_lap
                Track.default_track_width = Raise ValueError).
  { apply TrackFacts.build_track_short. cbn. lia. }
  split; [discriminate|]. split; [exact E|].
  intros g. rewrite E. discriminate.
Qed.

(** * Further properties of the replay window *)

(** ** Frame lookup *)

Lemma getitem_in_range {A : Type} (l : list A) (i : Z) :
  (0 <= i < Z.of_nat (List.length l))%Z ->
  exists a, getitem l i = Some a /\ nth_error l (Z.to_nat i) = Some a.
Proof.
  intros Hi. unfold getitem. cbv zeta.
  destruct (Z.leb_spec 0 i); [|lia].
  destruct (nth_error l (Z.to_nat i)) as [a|] eqn:E; [now exists a|].
  apply nth_error_None in E. lia.
Qed.

Lemma getitem_nil {A : Type} (i : Z) : getitem (@nil A) i = None.
Proof.
  unfold getitem. cbn.
  destruct (0 <=? i)%Z; [now destruct (Z.to_nat i)|].
  destruct (0 <=? i)%Z; [now destruct (Z.to_nat i)|].
  destruct (- 0 <=? i)%Z; [now destruct (Z.to_nat (0 + i))|reflexivity].
Qed.

Lemma step_op_frames (self : F1ReplayWindow) (op : ControllerOp) :
  frames (step_op self op) = frames self.
Proof.
  destruct op as [|symbol modifiers]; cbn.
  - unfold on_update. destruct (paused self); [reflexivity|].
    now destruct (_ <=? _)%Z.
  - unfold on_key_press.
    repeat match goal with |- context [if ?c then _ else _] => destruct c end;
      reflexivity.
Qed.

Lemma run_ops_frames (ops : list ControllerOp) : forall self,
  frames (run_ops ops self) = frames self.
Proof.
  unfold run_ops. induction ops as [|op ops IH]; intros self; [reflexivity|].
  cbn [fold_left]. now rewrite IH, step_op_frames.
Qed.

(** In a window whose frame count is the length of a non-empty frame
    list and whose index is within it, the frame [on_draw] reads exists
    after any run of ticks and key presses: the lookup never raises, and
    never wraps around through a negative index. *)
Theorem frame_lookup_never_fails (self : F1ReplayWindow) :
  frames_counted self ->
  (1 <= n_frames self)%Z ->
  index_in_range self ->
  forall ops,
    exists frame,
      current_frame (run_ops ops self) = Some frame
      /\ nth_error (frames self)
           (Z.to_nat (frame_index (run_ops ops self))) = Some frame.
Proof.
  intros Hc Hn Hi ops.
  destruct (run_ops_in_range ops self Hn Hi) as (Hr & En).
  unfold index_in_range in Hr. rewrite En in Hr.
  unfold current_frame. rewrite run_ops_frames.
  apply getitem_in_range. unfold frames_counted in Hc. lia.
Qed.

Lemma frame_lookup_never_fails_witness :
  exists frame,
    current_frame
      (run_ops [Tick; Tick; KeyPress key.LEFT 0; KeyPress key.RIGHT 0]
               window_replay) = Some frame
    /\ nth_error (frames window_replay)
         (Z.to_nat (frame_index
            (run_ops [Tick; Tick; KeyPress key.LEFT 0; KeyPress key.RIGHT 0]
                     window_replay))) = Some frame.
Proof.
  apply (frame_lookup_never_fails window_replay eq_refl).
  - cbn. lia.
  - unfold index_in_range. cbn. lia.
Defined.

(** A replay without frames has nothing to draw in any state ticks and
    key presses lead to; its first tick moves the index from 0 to -1. *)
Theorem empty_replay_never_draws (self : F1ReplayWindow) :
  frames self = [] ->
  frames_counted self ->
  (forall ops, current_frame (run_ops ops self) = None)
  /\ (paused self = false -> frame_index self = 0%Z ->
      frame_index (on_update self) = (-1)%Z).
Proof.
  intros He Hc. split.
  - intros ops. unfold current_frame. rewrite run_ops_frames, He.
    apply getitem_nil.
  - intros Hp H0. unfold frames_counted in Hc. rewrite He in Hc. cbn in Hc.
    unfold on_update. rewrite Hp, Hc, H0.
    destruct (Z.leb_spec 0 (0 + Z.max 1 (Py.int (playback_speed self))));
      [reflexivity | lia].
Qed.

Lemma empty_replay_never_draws_witness :
  current_frame (run_ops [Tick; KeyPress key.RIGHT 0] window_track) = None
  /\ frame_index (on_update window_track) = (-1)%Z.
Proof.
  destruct (empty_replay_never_draws window_track eq_refl eq_refl)
    as (Hnone & Htick).
  exact (conj (Hnone _) (Htick eq_refl eq_refl)).
Defined.

(** ** Playback from start to end *)

(** A running replay at a finite speed never steps back and reaches
    its last frame however small or large that speed: after as many
    ticks as there are frames left, or more, the index is the last
    one. *)
Theorem playback_reaches_last_frame (self : F1ReplayWindow) (k : nat) :
  finite_float (playback_speed self) ->
  paused self = false ->
  (1 <= n_frames self)%Z ->
  index_in_range self ->
  (frame_index self <= frame_index (ticks k self))%Z
  /\ (frame_index (ticks k self) <= frame_index (ticks (S k) self))%Z
  /\ ((n_frames self - 1 - frame_index self <= Z.of_nat k)%Z ->
      frame_index (ticks k self) = (n_frames self - 1)%Z)
  /\ finite_float (playback_speed (ticks k self)).
Proof.
  intros Hf Hp Hn Hi.
  destruct (ticks_fields k self) as (_ & Es & _).
  rewrite Es. rewrite !ticks_index by assumption.
  unfold index_in_range in Hi.
  set (step := Z.max 1 (Qfloor (playback_speed self))).
  assert (Hs : (1 <= step)%Z) by (unfold step; lia).
  repeat split; try exact (proj1 Hf); try exact (proj2 Hf); intros; nia.
Qed.

Lemma finite_float_one : finite_float 1.
Proof. split; apply Qle_bool_iff; vm_compute; reflexivity. Qed.

Lemma playback_reaches_last_frame_witness :
  frame_index (ticks 4 window95) = 99%Z.
Proof.
  assert (Hi : index_in_range window95) by (unfold index_in_range; cbn; lia).
  destruct (playback_reaches_last_frame window95 4 finite_float_one eq_refl
              ltac:(cbn; lia) Hi) as (_ & _ & H & _).
  apply H. cbn. lia.
Defined.

(** ** Pause *)

Lemma ticks_paused (k : nat) : forall self,
  paused self = true -> ticks k self = self.
Proof.
  induction k as [|k IH]; intros self Hp; [reflexivity|].
  cbn [ticks]. unfold on_update. rewrite Hp. now apply IH.
Qed.

(** While the replay is paused ticks change nothing, and the space bar
    undoes itself: pausing a running replay, letting any number of ticks
    pass and resuming gives back the very window that was paused. *)
Theorem pause_freezes_playback
  (self : F1ReplayWindow) (k : nat) (modifiers modifiers' : Z) :
  (paused self = true -> ticks k self = self)
  /\ on_key_press (on_key_press self key.SPACE modifiers) key.SPACE modifiers'
     = self
  /\ (paused self = false ->
      on_key_press (ticks k (on_key_press self key.SPACE modifiers))
        key.SPACE modifiers' = self).
Proof.
  assert (Htwice : on_key_press (on_key_press self key.SPACE modifiers)
                     key.SPACE modifiers' = self).
  { destruct self. cbn. now rewrite negb_involutive. }
  split; [apply ticks_paused|]. split; [exact Htwice|].
  intros Hp. rewrite ticks_paused; [exact Htwice|].
  cbn. now rewrite Hp.
Qed.

Lemma pause_freezes_playback_witness :
  on_key_press (ticks 40 (on_key_press window5 key.SPACE 0)) key.SPACE 0
  = window5.
Proof.
  destruct (pause_freezes_playback window5 40 0 0) as (_ & _ & H).
  exact (H eq_refl).
Defined.

(** ** Speed keys *)

(** From a finite speed of at least 0.1: doubling and then halving
    gives the speed back as long as the double is still a finite float
    (beyond, the code is left with an infinite speed); halving and then
    doubling gives it back from 0.2 on, and gives 0.2 below. *)
Theorem speed_keys_round_trip (self : F1ReplayWindow) (m m' : Z) :
  1 # 10 <= playback_speed self ->
  finite_float (playback_speed self) ->
  (finite_float (playback_speed self * 2) ->
   playback_speed (on_key_press (on_key_press self key.UP m) key.DOWN m')
   == playback_speed self
   /\ finite_float (playback_speed (on_key_press self key.UP m)))
  /\ playback_speed (on_key_press (on_key_press self key.DOWN m) key.UP m')
     == Qmax (playback_speed self) (2 # 10)
  /\ finite_float (playback_speed (on_key_press self key.DOWN m))
  /\ finite_float
       (playback_speed
          (on_key_press (on_key_press self key.DOWN m) key.UP m')).
Proof.
  intros Hs (Hlo & Hhi).
  assert (Hbig : 1 <= float_max)
    by (apply Qle_bool_iff; vm_compute; reflexivity).
  repeat (rewrite halve_speed || rewrite double_speed).
  assert (Pm := Py_max_Qmax (1 # 10) (playback_speed self / 2)).
  assert (Pd := Py_max_Qmax (1 # 10) (playback_speed self * 2 / 2)).
  assert (Hdown : 1 # 10 <= Qmax (1 # 10) (playback_speed self / 2)
                  /\ Qmax (1 # 10) (playback_speed self / 2)
                     <= playback_speed self).
  { split; [apply Q.le_max_l|]. apply Q.max_lub; qlra. }
  assert (Hup : Qmax (1 # 10) (playback_speed self / 2) * 2
                == Qmax (playback_speed self) (2 # 10)).
  { destruct (Qlt_le_dec (playback_speed self) (2 # 10)) as [Hlt | Hge].
    - rewrite (Q.max_r (playback_speed self)) by qlra.
      rewrite Q.max_l by qlra. reflexivity.
    - rewrite (Q.max_l (playback_speed self)) by exact Hge.
      rewrite Q.max_r by qlra. field. }
  unfold finite_float.
  split; [|split; [|split]].
  - intros Hdouble. split; [|exact Hdouble].
    rewrite Pd. rewrite Q.max_r; [field|].
    setoid_replace (playback_speed self * 2 / 2) with (playback_speed self)
      by field. exact Hs.
  - rewrite Pm. exact Hup.
  - rewrite Pm. destruct Hdown as (D1 & D2). split; qlra.
  - rewrite Pm, Hup. split.
    + eapply Qle_trans; [|apply Q.le_max_l]. exact Hlo.
    + apply Q.max_lub; [exact Hhi | qlra].
Qed.

Lemma finite_float_two : finite_float (1 * 2).
Proof. split; apply Qle_bool_iff; vm_compute; reflexivity. Qed.

Lemma speed_keys_round_trip_witness :
  playback_speed (on_key_press (on_key_press window0 key.UP 0) key.DOWN 0)
  == 1
  /\ playback_speed (on_key_press (on_key_press window0 key.DOWN 0) key.UP 0)
     == Qmax 1 (2 # 10).
Proof.
  destruct (speed_keys_round_trip window0 0 0 ltac:(discriminate)
              finite_float_one) as (Hud & Hdu & _).
  exact (conj (proj1 (Hud finite_float_two)) Hdu).
Defined.

(** ** Resizing and playback *)

Ltac window_fields :=
  unfold step_op, on_update, on_key_press, rescaled, set_transform,
    set_screen_points, set_frame_index, set_playback_speed, set_paused,
    set_size, world_to_screen;
  cbn [frames n_frames playback_speed driver_colors frame_index paused
       x_min x_max y_min y_max world_inner_points world_outer_points
       screen_inner_points screen_outer_points world_scale tx ty
       width height].

Lemma rescaled_step_op (self : F1ReplayWindow) (op : ControllerOp) (w h : Q) :
  rescaled (step_op self op) w h = step_op (rescaled self w h) op.
Proof.
  destruct self, op; window_fields;
    repeat match goal with |- context [if ?c then _ else _] => destruct c end;
    reflexivity.
Qed.

Lemma rescaled_run_ops (ops : list ControllerOp) (w h : Q) : forall self,
  rescaled (run_ops ops self) w h = run_ops ops (rescaled self w h).
Proof.
  unfold run_ops. induction ops as [|op ops IH]; intros self; [reflexivity|].
  cbn [fold_left]. now rewrite IH, rescaled_step_op.
Qed.

Lemma rescaled_twice (self : F1ReplayWindow) (w1 h1 w2 h2 : Q) :
  rescaled (rescaled self w1 h1) w2 h2 = rescaled self w2 h2.
Proof. reflexivity. Qed.

Lemma step_op_cache (self : F1ReplayWindow) (op : ControllerOp) :
  cache_coherent self -> cache_coherent (step_op self op).
Proof.
  unfold cache_coherent. destruct self, op; window_fields;
    repeat match goal with |- context [if ?c then _ else _] => destruct c end;
    window_fields; trivial.
Qed.

Lemma run_ops_cache (ops : list ControllerOp) : forall self,
  cache_coherent self -> cache_coherent (run_ops ops self).
Proof.
  unfold run_ops. induction ops as [|op ops IH]; intros self H; [exact H|].
  cbn [fold_left]. now apply IH, step_op_cache.
Qed.

Lemma run_ops_view (ops : list ControllerOp) : forall s,
  world_scale (run_ops ops s) = world_scale s
  /\ tx (run_ops ops s) = tx s
  /\ ty (run_ops ops s) = ty s
  /\ screen_inner_points (run_ops ops s) = screen_inner_points s
  /\ screen_outer_points (run_ops ops s) = screen_outer_points s.
Proof.
  unfold run_ops. induction ops as [|op ops IH]; intros s; [easy|].
  cbn [fold_left].
  destruct (IH (step_op s op)) as (-> & -> & -> & -> & ->).
  destruct s, op; window_fields;
    repeat match goal with |- context [if ?c then _ else _] => destruct c end;
    window_fields; repeat split.
Qed.

(** Only the last size counts, and resizing and playback do not touch
    each other: a resize after another resize and any run of ticks and
    key presses leaves the window that the same run followed by the last
    resize alone leaves, and the window that the last resize followed by
    the run leaves. *)
Theorem last_resize_wins
  (self : F1ReplayWindow) (w1 h1 w2 h2 : Q) (ops : list ControllerOp) :
  exists s1 s2,
    update_scaling self w1 h1 = Ok s1
    /\ update_scaling (run_ops ops s1) w2 h2 = Ok s2
    /\ update_scaling (run_ops ops self) w2 h2 = Ok s2
    /\ bind (update_scaling self w2 h2) (fun s => Ok (run_ops ops s)) = Ok s2.
Proof.
  exists (rescaled self w1 h1), (rescaled (run_ops ops self) w2 h2).
  split; [apply update_scaling_ok|].
  split.
  { rewrite update_scaling_ok. f_equal.
    now rewrite !rescaled_run_ops, rescaled_twice. }
  split; [apply update_scaling_ok|].
  rewrite update_scaling_ok. cbn [bind]. now rewrite rescaled_run_ops.
Qed.

(** After a resize the cached screen points of the two boundaries are
    the world points under the transform in force, as many as there are
    world points, and ticks and key presses keep them so. *)
Theorem screen_cache_follows_transform
  (self : F1ReplayWindow) (w h : Q) (ops : list ControllerOp) :
  exists self',
    update_scaling self w h = Ok self'
    /\ cache_coherent (run_ops ops self')
    /\ world_scale (run_ops ops self') = world_scale self'
    /\ tx (run_ops ops self') = tx self'
    /\ ty (run_ops ops self') = ty self'
    /\ List.length (screen_inner_points (run_ops ops self'))
       = List.length (world_inner_points self)
    /\ List.length (screen_outer_points (run_ops ops self'))
       = List.length (world_outer_points self).
Proof.
  exists (rescaled self w h). split; [apply update_scaling_ok|].
  assert (Hc : cache_coherent (rescaled self w h)) by (split; reflexivity).
  split; [now apply run_ops_cache|].
  destruct (run_ops_view ops (rescaled self w h)) as (-> & -> & -> & -> & ->).
  repeat split; unfold rescaled; window_fields; apply length_map.
Qed.

(** ** The track on the screen *)

Section Fit.

Variable self : F1ReplayWindow.
Variables w h : Q.

Let world_w := Py.max 1 (x_max self - x_min self).
Let world_h := Py.max 1 (y_max self - y_min self).
Let usable_w := w * (1 - 2 * padding).
Let usable_h := h * (1 - 2 * padding).
Let scale := world_scale (rescaled self w h).

Lemma extent_covers (lo hi : Q) :
  1 <= Py.max 1 (hi - lo) /\ hi - lo <= Py.max 1 (hi - lo).
Proof.
  rewrite Py_max_Qmax. split; [apply Q.le_max_l | apply Q.le_max_r].
Qed.

Lemma scale_fits :
  scale * world_w <= usable_w /\ scale * world_h <= usable_h.
Proof.
  unfold scale. rewrite rescaled_scale. fold world_w world_h usable_w usable_h.
  destruct (extent_covers (x_min self) (x_max self)) as (Hw & _).
  destruct (extent_covers (y_min self) (y_max self)) as (Hh & _).
  fold world_w in Hw. fold world_h in Hh.
  rewrite Py_min_Qmin. split.
  - setoid_replace usable_w with (usable_w / world_w * world_w) at 2
      by (field; Lqa.lra).
    apply Qmult_le_compat_r; [apply Q.le_min_l | Lqa.lra].
  - setoid_replace usable_h with (usable_h / world_h * world_h) at 2
      by (field; Lqa.lra).
    apply Qmult_le_compat_r; [apply Q.le_min_r | Lqa.lra].
Qed.

Lemma scale_nonneg : 0 <= w -> 0 <= h -> 0 <= scale.
Proof.
  intros Hw Hh. unfold scale. rewrite rescaled_scale, Py_min_Qmin.
  destruct (extent_covers (x_min self) (x_max self)) as (Hww & _).
  destruct (extent_covers (y_min self) (y_max self)) as (Hwh & _).
  apply Q.min_glb; apply Qle_shift_div_l; try Lqa.lra;
    unfold padding; Lqa.lra.
Qed.

Lemma scale_pos : 0 < w -> 0 < h -> 0 < scale.
Proof.
  intros Hw Hh. unfold scale. rewrite rescaled_scale, Py_min_Qmin.
  destruct (extent_covers (x_min self) (x_max self)) as (Hww & _).
  destruct (extent_covers (y_min self) (y_max self)) as (Hwh & _).
  apply Q.min_glb_lt; apply Qlt_shift_div_l; try Lqa.lra;
    unfold padding; Lqa.lra.
Qed.

End Fit.

Lemma fits_one_axis (S W lo hi p c : Q) :
  0 <= S -> S * W <= c * (1 - 2 * padding) -> hi - lo <= W -> lo <= p <= hi ->
  padding * c <= S * p + (c / 2 - S * ((lo + hi) / 2)) <= (1 - padding) * c.
Proof.
  unfold padding. intros HS HU HW Hp.
  assert (A1 : 0 <= S * (p - lo)) by (apply Qmult_le_0_compat; Lqa.lra).
  assert (A2 : 0 <= S * (hi - p)) by (apply Qmult_le_0_compat; Lqa.lra).
  assert (A3 : 0 <= S * (W - (hi - lo))) by (apply Qmult_le_0_compat; Lqa.lra).
  split; qlra.
Qed.

Lemma rescaled_fits (self : F1ReplayWindow) (w h px py : Q) :
  0 <= w -> 0 <= h ->
  in_world_box self px py ->
  in_padded_screen w h (world_to_screen (rescaled self w h) px py).
Proof.
  intros Hw Hh (Hpx & Hpy).
  destruct (scale_fits self w h) as (Fw & Fh).
  assert (HS := scale_nonneg self w h Hw Hh).
  destruct (extent_covers (x_min self) (x_max self)) as (_ & Cw).
  destruct (extent_covers (y_min self) (y_max self)) as (_ & Ch).
  unfold in_padded_screen, world_to_screen.
  change (tx (rescaled self w h))
    with (w / 2 - world_scale (rescaled self w h)
                  * ((x_min self + x_max self) / 2)).
  change (ty (rescaled self w h))
    with (h / 2 - world_scale (rescaled self w h)
                  * ((y_min self + y_max self) / 2)).
  cbn [fst snd]. split.
  - exact (fits_one_axis _ _ _ _ px w HS Fw Cw Hpx).
  - exact (fits_one_axis _ _ _ _ py h HS Fh Ch Hpy).
Qed.

(** After a resize to a width and a height that are not negative, every
    point of the world bounding box lands on the screen inside the
    padding of 5 % on every side: the track and the cars on it are
    never cut off. *)
Theorem bounding_box_fits_padded_screen (self : F1ReplayWindow) (w h : Q) :
  0 <= w -> 0 <= h ->
  exists self',
    update_scaling self w h = Ok self'
    /\ forall px py,
         in_world_box self px py ->
         in_padded_screen w h (world_to_screen self' px py).
Proof.
  intros Hw Hh. exists (rescaled self w h).
  split; [apply update_scaling_ok|].
  intros px py Hbox. now apply rescaled_fits.
Qed.

Lemma bounding_box_fits_padded_screen_witness :
  exists self',
    update_scaling window_track 1920 1200 = Ok self'
    /\ in_padded_screen 1920 1200 (world_to_screen self' (-300) 100).
Proof.
  destruct (bounding_box_fits_padded_screen window_track 1920 1200
              ltac:(discriminate) ltac:(discriminate))
    as (self' & Hok & Hfit).
  exists self'. split; [exact Hok|].
  apply Hfit. repeat split; discriminate.
Defined.

(** After a resize to a positive width and height the scale is
    positive, so the map from the world to the screen keeps shapes: the
    offset between two screen points is the offset between the world
    points times the one scale, along both axes, and two world points
    that land on the same screen point are the same point. *)
Theorem world_to_screen_keeps_shapes (self : F1ReplayWindow) (w h : Q) :
  0 < w -> 0 < h ->
  exists self',
    update_scaling self w h = Ok self'
    /\ 0 < world_scale self'
    /\ forall px py qx qy,
         let p := world_to_screen self' px py in
         let q := world_to_screen self' qx qy in
         fst p - fst q == world_scale self' * (px - qx)
         /\ snd p - snd q == world_scale self' * (py - qy)
         /\ (px < qx -> fst p < fst q)
         /\ (py < qy -> snd p < snd q)
         /\ (fst p == fst q -> snd p == snd q -> px == qx /\ py == qy).
Proof.
  intros Hw Hh. exists (rescaled self w h).
  split; [apply update_scaling_ok|].
  assert (HS := scale_pos self w h Hw Hh).
  split; [exact HS|].
  intros px py qx qy. cbv zeta. unfold world_to_screen. cbn [fst snd].
  set (S := world_scale (rescaled self w h)) in *.
  set (Tx := tx (rescaled self w h)). set (Ty := ty (rescaled self w h)).
  assert (Hmono : forall a b, a < b -> S * a < S * b).
  { intros a b Hab. apply Qmult_lt_l; assumption. }
  assert (Hinj : forall a b tr, S * a + tr == S * b + tr -> a == b).
  { intros a b tr Hab. apply (Qmult_inj_l a b S); Lqa.lra. }
  split; [ring|]. split; [ring|].
  split; [intros H; specialize (Hmono _ _ H); Lqa.lra|].
  split; [intros H; specialize (Hmono _ _ H); Lqa.lra|].
  intros H1 H2. split; eapply Hinj; eassumption.
Qed.

Lemma world_to_screen_keeps_shapes_witness :
  exists self',
    update_scaling window_track 1920 1200 = Ok self'
    /\ 0 < world_scale self'.
Proof.
  destruct (world_to_screen_keeps_shapes window_track 1920 1200
              ltac:(reflexivity) ltac:(reflexivity))
    as (self' & Hok & Hpos & _).
  exists self'. exact (conj Hok Hpos).
Defined.

(** ** Timeline *)

Lemma timeline_progress_ok (self : F1ReplayWindow) :
  exists p,
    timeline_progress self = Ok p
    /\ ((n_frames self <= 1)%Z -> p = 0)
    /\ ((1 < n_frames self)%Z ->
        p == inject_Z (frame_index self) / inject_Z (n_frames self - 1)).
Proof.
  unfold timeline_progress.
  destruct (Z.ltb_spec 1 (n_frames self)) as [Hn | Hn].
  - unfold Py.div. destruct (Qeq_bool _ 0) eqn:E.
    + apply Qeq_bool_eq in E. unfold Qeq in E. cbn in E. lia.
    + eexists. split; [reflexivity|]. split; [lia | reflexivity].
  - exists 0. split; [reflexivity|]. split; [reflexivity | lia].
Qed.

(** The knob of the timeline is computed for any window, the one-frame
    replay included; with the index within the frames and a window at
    least as wide as the two margins it sits on the bar, at the left end
    at the first frame and at the right end at the last one. *)
Theorem timeline_knob_on_bar (self : F1ReplayWindow) :
  index_in_range self ->
  2 * margin_x <= width self ->
  exists knob_x,
    timeline_knob_x self = Ok knob_x
    /\ margin_x <= knob_x <= width self - margin_x
    /\ (frame_index self = 0%Z -> knob_x == margin_x)
    /\ ((1 < n_frames self)%Z ->
        frame_index self = (n_frames self - 1)%Z ->
        knob_x == width self - margin_x).
Proof.
  intros Hi Hw. unfold index_in_range in Hi. unfold timeline_knob_x.
  destruct (timeline_progress_ok self) as (p & -> & Hone & Hmany).
  cbn [bind]. eexists. split; [reflexivity|].
  assert (Hp : 0 <= p <= 1
               /\ (frame_index self = 0%Z -> p == 0)
               /\ ((1 < n_frames self)%Z ->
                   frame_index self = (n_frames self - 1)%Z -> p == 1)).
  { destruct (Z_lt_le_dec 1 (n_frames self)) as [Hn | Hn].
    - assert (Hd : 0 < inject_Z (n_frames self - 1)).
      { change 0 with (inject_Z 0). rewrite <- Zlt_Qlt. lia. }
      rewrite (Hmany Hn). split; [split|split].
      + apply Qle_shift_div_l; [exact Hd|]. rewrite Qmult_0_l.
        change 0 with (inject_Z 0). rewrite <- Zle_Qle. lia.
      + apply Qle_shift_div_r; [exact Hd|]. rewrite Qmult_1_l.
        rewrite <- Zle_Qle. lia.
      + intros ->. field. Lqa.lra.
      + intros _ ->. field. Lqa.lra.
    - rewrite (Hone Hn). split; [split; discriminate|].
      split; [reflexivity | lia]. }
  destruct Hp as ((Hp0 & Hp1) & Hfirst & Hlast).
  assert (A1 : 0 <= p * (width self - 2 * margin_x))
    by (apply Qmult_le_0_compat; Lqa.lra).
  assert (A2 : 0 <= (1 - p) * (width self - 2 * margin_x))
    by (apply Qmult_le_0_compat; Lqa.lra).
  split; [split; Lqa.lra|]. split.
  - intros H0. rewrite (Hfirst H0). ring.
  - intros Hn Hl. rewrite (Hlast Hn Hl). ring.
Qed.

Lemma timeline_knob_on_bar_witness :
  exists knob_x,
    timeline_knob_x window95 = Ok knob_x
    /\ margin_x <= knob_x <= 1920 - margin_x.
Proof.
  destruct (timeline_knob_on_bar window95) as (k & Hk & Hbar & _).
  - unfold index_in_range. cbn. lia.
  - discriminate.
  - exists k. exact (conj Hk Hbar).
Defined.

(** ** Race clock *)

(** For a timestamp that is not negative (and below [2 ^ 53], where
    the floats hold every whole second) the hours, minutes and seconds
    of the race clock add up to the whole seconds of the timestamp,
    with minutes and seconds from 0 to 59 and hours from 0 up. *)
Theorem clock_adds_up (t : Q) :
  whole_seconds_exact t ->
  (3600 * hours t + 60 * minutes t + seconds t = Qfloor t)%Z
  /\ (0 <= hours t)%Z
  /\ (0 <= minutes t < 60)%Z
  /\ (0 <= seconds t < 60)%Z.
Proof.
  intros (Ht & _).
  rewrite hours_spec, minutes_spec, seconds_spec.
  set (a := Qfloor t).
  assert (Ha : (0 <= a)%Z).
  { unfold a. rewrite <- (Qfloor_Z 0). now apply Qfloor_resp_le. }
  assert (Hs := Z.mod_pos_bound a 60 ltac:(lia)).
  assert (Hm := Z.mod_pos_bound (a / 60) 60 ltac:(lia)).
  assert (E1 := Z.div_mod a 60 ltac:(lia)).
  assert (E2 := Z.div_mod (a / 60) 60 ltac:(lia)).
  assert (E3 : (a / 3600 = a / 60 / 60)%Z)
    by (rewrite Z.div_div by lia; reflexivity).
  assert (Hh : (0 <= a / 3600)%Z) by (apply Z.div_pos; lia).
  repeat split; lia.
Qed.

(** ** Cars *)

Lemma perm_filter_length {A : Type} (f : A -> bool) (l l' : list A) :
  Permutation l l' ->
  List.length (filter f l) = List.length (filter f l').
Proof.
  induction 1 as [|a l l' _ IH|a b l|l l' l'' _ IH1 _ IH2]; cbn.
  - reflexivity.
  - destruct (f a); cbn; now rewrite IH.
  - destruct (f a), (f b); reflexivity.
  - now rewrite IH1.
Qed.

Lemma draw_cars_racing (self : F1ReplayWindow) (ds : list (string * DriverPos)) :
  car_labels (draw_cars self ds)
  = map fst (filter (fun d => negb (is_out (snd d))) ds)
  /\ car_discs (draw_cars self ds)
     = map (fun d => world_to_screen self (x (snd d)) (y (snd d)))
           (filter (fun d => negb (is_out (snd d))) ds)
  /\ List.length (draw_cars self ds)
     = (3 * List.length (filter (fun d => negb (is_out (snd d))) ds))%nat.
Proof.
  induction ds as [|[code pos] ds (IH1 & IH2 & IH3)]; [easy|].
  cbn [draw_cars filter snd]. destruct (is_out pos); cbn [negb]; [easy|].
  set (s := world_to_screen self (x pos) (y pos)).
  change (car_discs
            (draw_circle_filled (fst s) (snd s) 8 color_BLACK
             :: draw_circle_filled (fst s) (snd s) 6
                  (color_of (driver_colors self) code)
             :: draw_text (mkText code (fst s + 10) (snd s + 4) color.WHITE 10)
             :: draw_cars self ds))
    with ((fst s, snd s) :: car_discs (draw_cars self ds)).
  cbn [car_labels map List.length text fst snd].
  rewrite IH1, IH2, IH3. repeat split. lia.
Qed.

(** The cars drawn are the drivers of the frame that are not retired,
    in the order of the mapping: a ring, a disc at the driver's screen
    position and the driver's code for each.  Every driver is either
    drawn as a car or marked OUT on the leaderboard, never both. *)
Theorem cars_are_the_racing_drivers (self : F1ReplayWindow) (frame : Frame) :
  car_labels (draw_cars self (drivers frame)) = map fst (racing frame)
  /\ car_discs (draw_cars self (drivers frame))
     = map (fun d => world_to_screen self (x (snd d)) (y (snd d)))
           (racing frame)
  /\ List.length (draw_cars self (drivers frame))
     = (3 * List.length (racing frame))%nat
  /\ (List.length (racing frame)
      + List.length (filter (fun r => is_out (snd r)) (board_rows self frame))
      = List.length (drivers frame))%nat
  /\ (forall code col pos,
        In (code, col, pos) (board_rows self frame) ->
        is_out pos = false <-> In (code, pos) (racing frame)).
Proof.
  destruct (draw_cars_racing self (drivers frame)) as (H1 & H2 & H3).
  split; [exact H1|]. split; [exact H2|]. split; [exact H3|]. split.
  - unfold board_rows.
    rewrite (perm_filter_length _ _ _ (sort_perm (driver_list self frame))).
    unfold driver_list, racing.
    assert (E : forall l : list (string * DriverPos),
              List.length
                (filter (fun r : Row => is_out (snd r))
                   (map (fun d => (fst d, color_of (driver_colors self) (fst d),
                                   snd d)) l))
              = List.length (filter (fun d => is_out (snd d)) l)).
    { induction l as [|[c p] l IH]; [reflexivity|].
      cbn [map filter snd fst]. destruct (is_out p); cbn; now rewrite IH. }
    rewrite E.
    assert (F := filter_length (fun d : string * DriverPos => is_out (snd d))
                   (drivers frame)).
    cbn beta in F. lia.
  - intros code col pos Hin.
    apply (Permutation_in _ (sort_perm _)) in Hin.
    unfold driver_list in Hin. apply in_map_iff in Hin.
    destruct Hin as ([c p] & E & Hin). injection E as -> _ ->.
    unfold racing. rewrite filter_In. cbn [snd]. split.
    + intros Ho. split; [exact Hin | now rewrite Ho].
    + intros (_ & Ho). now apply negb_true_iff in Ho.
Qed.



(** ** The leader and the top of the leaderboard *)

(** The first row of the sorted list is the first row of the list that
    no row beats. *)
Lemma sort_head_first_max (l : list Row) : forall r rest,
  sort_by_dist_reverse l = r :: rest ->
  exists l1 l2,
    l = l1 ++ r :: l2
    /\ Forall (fun a => board_key a < board_key r) l1
    /\ Forall (fun a => board_key a <= board_key r) l2.
Proof.
  induction l as [|a l IH]; intros r rest Hs; [discriminate|].
  cbn [sort_by_dist_reverse] in Hs.
  destruct (sort_by_dist_reverse l) as [|r' rest'] eqn:E.
  - assert (l = []).
    { apply Permutation_nil. rewrite <- E. apply sort_perm. }
    subst l. cbn in Hs. injection Hs as <- <-.
    exists [], []. repeat split; constructor.
  - destruct (IH r' rest' eq_refl) as (l1 & l2 & -> & H1 & H2).
    cbn [insert_row] in Hs. destruct (Qle_bool _ _) eqn:Ek.
    + apply Qle_bool_iff in Ek. injection Hs as <- <-.
      exists [], (l1 ++ r' :: l2). split; [reflexivity|].
      split; [constructor|].
      apply Forall_app. split; [|constructor].
      * eapply Forall_impl; [|exact H1]. cbn beta. intros z Hz. qlra.
      * exact Ek.
      * eapply Forall_impl; [|exact H2]. cbn beta. intros z Hz. qlra.
    + assert (Hlt : board_key a < board_key r').
      { apply Qnot_le_lt. intros H. apply Qle_bool_iff in H. congruence. }
      injection Hs as <- <-.
      exists (a :: l1), l2. split; [reflexivity|].
      split; [now constructor | exact H2].
Qed.

(** [max] returns the first item that no item beats. *)
Lemma max_by_first_max (rest : list (string * DriverPos)) : forall best,
  exists l1 l2,
    best :: rest = l1 ++ max_by best rest :: l2
    /\ Forall (fun a => lex_lt (leader_key (snd a))
                               (leader_key (snd (max_by best rest)))) l1
    /\ Forall (fun a => lex_le (leader_key (snd a))
                               (leader_key (snd (max_by best rest)))) l2.
Proof.
  induction rest as [|d rest IH]; intros best; cbn [max_by].
  - exists [], []. repeat split; constructor.
  - destruct (key_gtb _ _) eqn:E.
    + apply key_gtb_true in E.
      destruct (IH d) as (l1 & l2 & Hd & H1 & H2).
      exists (best :: l1), l2. split; [cbn [app]; f_equal; exact Hd|].
      split; [|exact H2]. constructor; [|exact H1].
      destruct (max_by_greatest rest d) as (_ & Hmax).
      specialize (Hmax d (or_introl eq_refl)).
      unfold lex_lt, lex_le in *.
      destruct E as [E | [E E']], Hmax as [M | [M M']];
        try (left; lia). right. split; [congruence | qlra].
    + apply key_gtb_false in E.
      destruct (IH best) as (l1 & l2 & Hd & H1 & H2).
      destruct l1 as [|b l1].
      * cbn in Hd. injection Hd as Hb Hr.
        exists [], (d :: l2). split; [cbn; now rewrite <- Hb, Hr|].
        split; [constructor|]. constructor; [|exact H2].
        now rewrite <- Hb.
      * cbn in Hd. injection Hd as <- Hr.
        exists (best :: d :: l1), l2.
        split; [cbn [app]; do 2 f_equal; exact Hr|].
        split; [|exact H2].
        apply Forall_cons_iff in H1. destruct H1 as (Hb & H1).
        constructor; [exact Hb|]. constructor; [|exact H1].
        unfold lex_lt, lex_le in *.
        destruct E as [E | [E E']], Hb as [M | [M M']];
          try (left; lia). right. split; [congruence | qlra].
Qed.

Lemma first_max_unique {A : Type} (lt le : A -> A -> Prop) :
  (forall a b, lt a b -> le b a -> False) ->
  forall l1 a l2 l1' a' l2',
    l1 ++ a :: l2 = l1' ++ a' :: l2' ->
    Forall (fun z => lt z a) l1 -> Forall (fun z => le z a) l2 ->
    Forall (fun z => lt z a') l1' -> Forall (fun z => le z a') l2' ->
    a = a'.
Proof.
  intros Hirr. induction l1 as [|z l1 IH]; intros a l2 [|z' l1'] a' l2' E H1 H2 H1' H2'.
  - now injection E.
  - cbn in E. injection E as -> ->.
    apply Forall_cons_iff in H1'. destruct H1' as (Hlt & _).
    apply Forall_app in H2. destruct H2 as (_ & H2).
    apply Forall_cons_iff in H2. destruct H2 as (Hle & _).
    destruct (Hirr _ _ Hlt Hle).
  - cbn in E. injection E as -> <-.
    apply Forall_cons_iff in H1. destruct H1 as (Hlt & _).
    apply Forall_app in H2'. destruct H2' as (_ & H2').
    apply Forall_cons_iff in H2'. destruct H2' as (Hle & _).
    destruct (Hirr _ _ Hlt Hle).
  - cbn in E. injection E as -> E.
    apply Forall_cons_iff in H1, H1'.
    apply (IH a l2 l1' a' l2' E); tauto.
Qed.

(** When every driver of the frame has a recorded distance and all are
    on the same lap, the leader whose lap the HUD shows is the driver in
    the first row of the leaderboard.  Across laps the two can differ:
    with A on lap 2 at distance 50 and B on lap 3 at distance 10 the
    leader is B and the first row is A. *)
Theorem leader_tops_leaderboard (self : F1ReplayWindow) (frame : Frame) :
  drivers frame <> [] ->
  (forall c p, In (c, p) (drivers frame) -> dist p <> None) ->
  (forall c p c' p',
      In (c, p) (drivers frame) -> In (c', p') (drivers frame) ->
      get (lap p) 1%Z = get (lap p') 1%Z) ->
  (exists code pos rest,
     leader frame = Ok (code, pos)
     /\ board_rows self frame
        = (code, color_of (driver_colors self) code, pos) :: rest)
  /\ leader_code frame_AB = Ok "B"%string
  /\ board_codes self frame_AB = ["A"; "B"]%string.
Proof.
  intros Hne Hdist Hlap. split; [|split; reflexivity].
  set (f := fun d : string * DriverPos =>
              (fst d, color_of (driver_colors self) (fst d), snd d)).
  unfold leader, board_rows, driver_list. fold f.
  destruct (drivers frame) as [|d0 rest0] eqn:Ed; [congruence|]. clear Hne.
  destruct (max_by_first_max rest0 d0) as (l1 & l2 & Hm & H1 & H2).
  remember (max_by d0 rest0) as m eqn:Hmax. clear Hmax.
  destruct (sort_by_dist_reverse (map f (d0 :: rest0))) as [|r rest] eqn:Es.
  { assert (Hp := sort_perm (map f (d0 :: rest0))). rewrite Es in Hp.
    apply Permutation_nil in Hp. discriminate. }
  destruct (sort_head_first_max _ _ _ Es) as (L1 & L2 & HL & K1 & K2).
  apply map_eq_app in HL. destruct HL as (d1 & d2' & Hd & <- & HL).
  apply map_eq_cons in HL. destruct HL as (dm & d2 & -> & <- & <-).
  apply (proj1 (Forall_map f (fun a : Row => board_key a < board_key (f dm))
                  d1)) in K1.
  apply (proj1 (Forall_map f (fun a : Row => board_key a <= board_key (f dm))
                  d2)) in K2.
  assert (Hkey : forall a b,
            In a (d0 :: rest0) -> In b (d0 :: rest0) ->
            (lex_lt (leader_key (snd a)) (leader_key (snd b))
             -> board_key (f a) < board_key (f b))
            /\ (lex_le (leader_key (snd a)) (leader_key (snd b))
                -> board_key (f a) <= board_key (f b))).
  { intros [ca pa] [cb pb] Ha Hb.
    assert (La := Hlap ca pa cb pb Ha Hb).
    assert (Da := Hdist ca pa Ha). assert (Db := Hdist cb pb Hb).
    unfold lex_lt, lex_le, leader_key, board_key, f. cbn [fst snd].
    destruct (dist pa) as [qa|]; [|congruence].
    destruct (dist pb) as [qb|]; [|congruence].
    cbn [get]. split; intros [H | [_ H]]; try lia; exact H. }
  assert (Em : dm = m).
  { apply (first_max_unique
             (fun a b => board_key (f a) < board_key (f b))
             (fun a b => board_key (f a) <= board_key (f b)))
      with (l1 := d1) (l2 := d2) (l1' := l1) (l2' := l2).
    - intros a b Hlt Hle. qlra.
    - now rewrite <- Hd, <- Hm.
    - exact K1.
    - exact K2.
    - rewrite Forall_forall in H1 |- *. intros a Ha.
      apply Hkey; [| |now apply H1]; rewrite Hm; apply in_or_app;
        [now left | right; now left].
    - rewrite Forall_forall in H2 |- *. intros a Ha.
      apply Hkey; [| |now apply H2]; rewrite Hm; apply in_or_app;
        [right; now right | right; now left]. }
  subst dm. destruct m as [code pos].
  exists code, pos, rest. split; reflexivity.
Qed.

Lemma leader_tops_leaderboard_witness :
  exists code pos rest,
    leader frame_ABC = Ok (code, pos)
    /\ board_rows window0 frame_ABC
       = (code, color_of (driver_colors window0) code, pos) :: rest.
Proof.
  destruct (leader_tops_leaderboard window0 frame_ABC) as (H & _).
  - discriminate.
  - intros c p [E | [E | [E | []]]]; injection E as <- <-; discriminate.
  - intros c p c' p' [E | [E | [E | []]]] [E' | [E' | [E' | []]]];
      injection E as <- <-; injection E' as <- <-; reflexivity.
  - exact H.
Defined.

(** ** The track on the screen: what is drawn *)

(** After a resize the track is drawn from the world points under the
    new transform: each boundary as one strip when it has two points or
    more, and the start/finish line between the screen positions of the
    first inner and the first outer world point; a boundary of a single
    point gives no strip, a window without boundary points draws no
    track at all. *)
Theorem track_drawn_after_resize (self : F1ReplayWindow) (w h : Q) :
  exists self',
    update_scaling self w h = Ok self'
    /\ (world_inner_points self = [] -> world_outer_points self = [] ->
        draw_track self' = [])
    /\ (forall p_in r_in p_out r_out,
          world_inner_points self = p_in :: r_in ->
          world_outer_points self = p_out :: r_out ->
          let proj := fun p => world_to_screen self' (fst p) (snd p) in
          draw_track self'
          = (if (0 <? List.length r_in)%nat
             then [draw_line_strip (map proj (p_in :: r_in)) track_color 4]
             else [])
            ++ (if (0 <? List.length r_out)%nat
                then [draw_line_strip (map proj (p_out :: r_out)) track_color 4]
                else [])
            ++ [draw_line (fst (proj p_in)) (snd (proj p_in))
                          (fst (proj p_out)) (snd (proj p_out))
                          color.WHITE 3]).
Proof.
  exists (rescaled self w h). split; [apply update_scaling_ok|].
  unfold draw_track, rescaled. window_fields. split.
  - intros -> ->. reflexivity.
  - intros p_in r_in p_out r_out -> ->. cbv zeta.
    cbn [map List.length Nat.ltb Nat.leb]. rewrite !length_map.
    reflexivity.
Qed.

Lemma track_drawn_after_resize_witness :
  exists self',
    update_scaling window_track 1920 1200 = Ok self'
    /\ List.length (draw_track self') = 3%nat.
Proof.
  destruct (track_drawn_after_resize window_track 1920 1200)
    as (self' & Hok & _ & H).
  exists self'. split; [exact Hok|].
  rewrite (H (0, 0) [(100, 50)] (0, 10) [(100, 60)] eq_refl eq_refl).
  reflexivity.
Defined.

(** ** Two more sample runs *)

Lemma clock_adds_up_witness :
  (3600 * hours (7451 # 2) + 60 * minutes (7451 # 2) + seconds (7451 # 2)
   = 3725)%Z
  /\ (0 <= hours (7451 # 2))%Z.
Proof.
  destruct (clock_adds_up (7451 # 2)) as (H & Hh & _).
  - split; [discriminate | reflexivity].
  - exact (conj H Hh).
Defined.

Lemma cars_are_the_racing_drivers_witness :
  car_labels (draw_cars window_replay (drivers frame_two)) = ["VER"]%string
  /\ In ("VER"%string, driver_on_track) (racing frame_two).
Proof.
  destruct (cars_are_the_racing_drivers window_replay frame_two)
    as (Hl & _ & _ & _ & Hr).
  split; [exact Hl|].
  apply (Hr "VER"%string color.WHITE driver_on_track);
    [left; reflexivity | reflexivity].
Defined.

(** * Further properties of the track geometry *)

Module BoundaryFacts.

Import Track.
Local Open Scope R_scope.

Lemma fold_Rmin_lower (l : list R) : forall a,
  fold_left Rmin l a <= a
  /\ (forall z, In z l -> fold_left Rmin l a <= z)
  /\ In (fold_left Rmin l a) (a :: l).
Proof.
  induction l as [|b l IH]; intros a; cbn [fold_left].
  - split; [lra|]. split; [intros z []|now left].
  - destruct (IH (Rmin a b)) as (H1 & H2 & H3).
    assert (Ha := Rmin_l a b). assert (Hb := Rmin_r a b).
    split; [lra|]. split.
    + intros z [<- | Hz]; [lra | now apply H2].
    + destruct H3 as [H3 | H3]; [|right; now right].
      rewrite <- H3. unfold Rmin. destruct (Rle_dec a b);
        [now left | right; now left].
Qed.

Lemma fold_Rmax_upper (l : list R) : forall a,
  a <= fold_left Rmax l a
  /\ (forall z, In z l -> z <= fold_left Rmax l a)
  /\ In (fold_left Rmax l a) (a :: l).
Proof.
  induction l as [|b l IH]; intros a; cbn [fold_left].
  - split; [lra|]. split; [intros z []|now left].
  - destruct (IH (Rmax a b)) as (H1 & H2 & H3).
    assert (Ha := Rmax_l a b). assert (Hb := Rmax_r a b).
    split; [lra|]. split.
    + intros z [<- | Hz]; [lra | now apply H2].
    + destruct H3 as [H3 | H3]; [|right; now right].
      rewrite <- H3. unfold Rmax. destruct (Rle_dec a b);
        [right; now left | now left].
Qed.

Lemma amin_lower (l : list R) (v : R) :
  amin l = Ok v -> In v l /\ forall z, In z l -> v <= z.
Proof.
  destruct l as [|a l]; [discriminate|]. cbn. intros H. injection H as <-.
  destruct (fold_Rmin_lower l a) as (H1 & H2 & H3).
  split; [exact H3|]. intros z [<- | Hz]; [exact H1 | now apply H2].
Qed.

Lemma amax_upper (l : list R) (v : R) :
  amax l = Ok v -> In v l /\ forall z, In z l -> z <= v.
Proof.
  destruct l as [|a l]; [discriminate|]. cbn. intros H. injection H as <-.
  destruct (fold_Rmax_upper l a) as (H1 & H2 & H3).
  split; [exact H3|]. intros z [<- | Hz]; [exact H1 | now apply H2].
Qed.

(** What a successful build returned: the four bounds are the least and
    the greatest of the minima and maxima of the three curves. *)
Lemma build_track_bounds (example_lap : list (R * R)) (track_width : R)
  (g : TrackGeometry) :
  build_track_from_example_lap example_lap track_width = Ok g ->
  exists xr xi xo Xr Xi Xo yr yi yo Yr Yi Yo,
    amin (plot_x_ref g) = Ok xr /\ amin (x_inner g) = Ok xi
    /\ amin (x_outer g) = Ok xo
    /\ amax (plot_x_ref g) = Ok Xr /\ amax (x_inner g) = Ok Xi
    /\ amax (x_outer g) = Ok Xo
    /\ amin (plot_y_ref g) = Ok yr /\ amin (y_inner g) = Ok yi
    /\ amin (y_outer g) = Ok yo
    /\ amax (plot_y_ref g) = Ok Yr /\ amax (y_inner g) = Ok Yi
    /\ amax (y_outer g) = Ok Yo
    /\ x_min g = Rmin (Rmin xr xi) xo /\ x_max g = Rmax (Rmax Xr Xi) Xo
    /\ y_min g = Rmin (Rmin yr yi) yo /\ y_max g = Rmax (Rmax Yr Yi) Yo.
Proof.
  unfold build_track_from_example_lap. intros H.
  destruct (tangents _ _) as [[dx dy]|e]; [|discriminate H].
  cbn [bind fst snd] in H.
  repeat match type of H with
    | context [bind (amin ?l) _] =>
        let v := fresh "v" in let E := fresh "E" in
        destruct (amin l) as [v|?] eqn:E; [|discriminate H];
        cbn [bind] in H
    | context [bind (amax ?l) _] =>
        let v := fresh "v" in let E := fresh "E" in
        destruct (amax l) as [v|?] eqn:E; [|discriminate H];
        cbn [bind] in H
    end.
  injection H as <-.
  cbn [plot_x_ref plot_y_ref x_inner y_inner x_outer y_outer
       x_min x_max y_min y_max].
  do 12 eexists. repeat split; eassumption.
Qed.

Ltac bound_facts :=
  repeat match goal with
    | E : amin ?l = Ok ?v, Hz : In ?z ?l |- _ =>
        lazymatch goal with
        | _ : v <= z |- _ => fail
        | _ => assert (v <= z) by (apply (amin_lower l v E); exact Hz)
        end
    | E : amax ?l = Ok ?v, Hz : In ?z ?l |- _ =>
        lazymatch goal with
        | _ : z <= v |- _ => fail
        | _ => assert (z <= v) by (apply (amax_upper l v E); exact Hz)
        end
    end.

Ltac min_max_cases :=
  unfold Rmin, Rmax; repeat destruct (Rle_dec _ _); lra.

(** On a lap of two samples or more the world bounding box the builder
    returns contains every point of the centre line, of the inner
    boundary and of the outer boundary, and is not inverted. *)
Theorem bounding_box_contains_track
  (example_lap : list (R * R)) (track_width : R) :
  (2 <= List.length example_lap)%nat ->
  exists g,
    build_track_from_example_lap example_lap track_width = Ok g
    /\ (forall z, In z (plot_x_ref g) \/ In z (x_inner g) \/ In z (x_outer g) ->
          x_min g <= z <= x_max g)
    /\ (forall z, In z (plot_y_ref g) \/ In z (y_inner g) \/ In z (y_outer g) ->
          y_min g <= z <= y_max g)
    /\ x_min g <= x_max g
    /\ y_min g <= y_max g.
Proof.
  intros Hn.
  destruct (TrackFacts.build_track_ok example_lap track_width Hn)
    as (g & Hg & Ex & Ey & _).
  exists g. split; [exact Hg|].
  destruct (build_track_bounds example_lap track_width g Hg)
    as (xr & xi & xo & Xr & Xi & Xo & yr & yi & yo & Yr & Yi & Yo
        & E1 & E2 & E3 & E4 & E5 & E6 & E7 & E8 & E9 & E10 & E11 & E12
        & -> & -> & -> & ->).
  assert (Hx : forall z,
            In z (plot_x_ref g) \/ In z (x_inner g) \/ In z (x_outer g) ->
            Rmin (Rmin xr xi) xo <= z <= Rmax (Rmax Xr Xi) Xo).
  { intros z [Hz | [Hz | Hz]]; bound_facts; min_max_cases. }
  assert (Hy : forall z,
            In z (plot_y_ref g) \/ In z (y_inner g) \/ In z (y_outer g) ->
            Rmin (Rmin yr yi) yo <= z <= Rmax (Rmax Yr Yi) Yo).
  { intros z [Hz | [Hz | Hz]]; bound_facts; min_max_cases. }
  split; [exact Hx|]. split; [exact Hy|].
  destruct (amin_lower _ _ E1) as (Hin1 & _).
  destruct (amin_lower _ _ E7) as (Hin7 & _).
  split.
  - destruct (Hx xr (or_introl Hin1)). lra.
  - destruct (Hy yr (or_introl Hin7)). lra.
Qed.

Lemma bounding_box_contains_track_witness :
  exists g,
    build_track_from_example_lap straight_lap default_track_width = Ok g
    /\ x_min g <= x_max g
    /\ y_min g <= y_max g.
Proof.
  destruct (bounding_box_contains_track straight_lap default_track_width
              ltac:(cbn; lia)) as (g & Hg & _ & _ & Hx & Hy).
  exists g. exact (conj Hg (conj Hx Hy)).
Defined.

(** *** The two boundaries face each other *)

Lemma mirrored_offsets (c v : R * R) (h : R) :
  midpoint (fst c - fst v * h, snd c - snd v * h)
           (fst c + fst v * h, snd c + snd v * h) = c
  /\ (0 <= h -> fst v ^ 2 + snd v ^ 2 = 1 ->
      distance (fst c - fst v * h, snd c - snd v * h)
               (fst c + fst v * h, snd c + snd v * h) = 2 * h).
Proof.
  split.
  - unfold midpoint. destruct c as [a b]. cbn [fst snd]. f_equal; field.
  - intros Hh Hv. unfold distance. cbn [fst snd].
    replace (_ + _) with ((2 * h) ^ 2 * (fst v ^ 2 + snd v ^ 2)) by ring.
    rewrite Hv, Rmult_1_r. apply sqrt_pow2. lra.
Qed.

(** On a lap of two samples or more every sample of the lap lies
    half-way between its inner and its outer boundary point, and where
    the tangent is not zero the two are a full track width apart
    (200 world units by default). *)
Theorem boundaries_face_each_other
  (example_lap : list (R * R)) (track_width : R) :
  (2 <= List.length example_lap)%nat ->
  0 <= track_width ->
  exists g,
    build_track_from_example_lap example_lap track_width = Ok g
    /\ forall i, (i < List.length example_lap)%nat ->
         let p_in := point_at (x_inner g) (y_inner g) i in
         let p_out := point_at (x_outer g) (y_outer g) i in
         midpoint p_in p_out = nth i example_lap (0, 0)
         /\ (tangent_at example_lap i <> (0, 0) ->
             distance p_in p_out = track_width).
Proof.
  intros Hn Hw.
  destruct (TrackFacts.build_track_ok example_lap track_width Hn)
    as (g & Hg & _ & _ & _ & _ & _ & _ & Hpts).
  exists g. split; [exact Hg|]. intros i Hi. cbv zeta.
  destruct (Hpts i Hi) as (Eo & Ei).
  rewrite TrackFacts.point_at_lap in Eo, Ei. rewrite Eo, Ei.
  destruct (mirrored_offsets (nth i example_lap (0, 0))
              (normal_at example_lap i) (track_width / 2)) as (Hmid & Hdist).
  split; [exact Hmid|]. intros Ht.
  rewrite Hdist; [field | lra | now apply TrackFacts.normal_unit].
Qed.

Lemma boundaries_face_each_other_witness :
  exists g,
    build_track_from_example_lap straight_lap default_track_width = Ok g
    /\ midpoint (point_at (x_inner g) (y_inner g) 1)
                (point_at (x_outer g) (y_outer g) 1)
       = nth 1 straight_lap (0, 0).
Proof.
  destruct (boundaries_face_each_other straight_lap default_track_width
              ltac:(cbn; lia) ltac:(unfold default_track_width; lra))
    as (g & Hg & H).
  exists g. split; [exact Hg|].
  exact (proj1 (H 1%nat ltac:(cbn; lia))).
Defined.

(** *** A lap that stays on one spot *)

Lemma stationary_nth (example_lap : list (R * R)) (c : R * R) (i : nat) :
  stationary example_lap c -> (i < List.length example_lap)%nat ->
  nth i (map fst example_lap) 0 = fst c
  /\ nth i (map snd example_lap) 0 = snd c.
Proof.
  intros Hc Hi.
  assert (E : nth i example_lap (0, 0) = c) by (apply Hc, nth_In, Hi).
  assert (P := TrackFacts.point_at_lap example_lap i). unfold point_at in P.
  rewrite E in P. destruct c as [a b]. now injection P.
Qed.

Lemma stationary_tangent (example_lap : list (R * R)) (c : R * R) (i : nat) :
  stationary example_lap c -> (2 <= List.length example_lap)%nat ->
  (i < List.length example_lap)%nat ->
  tangent_at example_lap i = (0, 0).
Proof.
  intros Hc Hn Hi. unfold tangent_at, gradient_at. rewrite !length_map.
  set (n := List.length example_lap) in *.
  assert (Hat : forall j, (j < n)%nat ->
            nth j (map fst example_lap) 0 = fst c
            /\ nth j (map snd example_lap) 0 = snd c)
    by (intros j Hj; now apply stationary_nth).
  destruct (Nat.eqb_spec i 0) as [-> | H0].
  - destruct (Hat 0%nat ltac:(lia)) as (-> & ->).
    destruct (Hat 1%nat ltac:(lia)) as (-> & ->). f_equal; lra.
  - destruct (Nat.eqb_spec i (n - 1)) as [-> | Hl].
    + destruct (Hat (n - 1)%nat ltac:(lia)) as (-> & ->).
      destruct (Hat (n - 2)%nat ltac:(lia)) as (-> & ->). f_equal; lra.
    + destruct (Hat (i + 1)%nat ltac:(lia)) as (-> & ->).
      destruct (Hat (i - 1)%nat ltac:(lia)) as (-> & ->). f_equal; lra.
Qed.

Lemma all_nth_equal (l : list R) (n : nat) (v : R) :
  List.length l = n -> (forall i, (i < n)%nat -> nth i l 0 = v) ->
  forall z, In z l -> z = v.
Proof.
  intros Hl Hall z Hz. destruct (In_nth l z 0 Hz) as (i & Hi & <-).
  apply Hall. lia.
Qed.

(** A lap of two samples or more that stays on one spot has no
    direction: every tangent is zero, the guard keeps the division
    defined, both boundaries fall on the spot and the bounding box
    shrinks to it (the extents the viewport then floors to 1). *)
Theorem stationary_lap_collapses
  (example_lap : list (R * R)) (track_width : R) (c : R * R) :
  stationary example_lap c ->
  (2 <= List.length example_lap)%nat ->
  exists g,
    build_track_from_example_lap example_lap track_width = Ok g
    /\ (forall i, (i < List.length example_lap)%nat ->
          point_at (x_inner g) (y_inner g) i = c
          /\ point_at (x_outer g) (y_outer g) i = c)
    /\ x_min g = fst c /\ x_max g = fst c
    /\ y_min g = snd c /\ y_max g = snd c.
Proof.
  intros Hc Hn.
  destruct (TrackFacts.build_track_ok example_lap track_width Hn)
    as (g & Hg & Ex & Ey & Lxi & Lyi & Lxo & Lyo & Hpts).
  exists g. split; [exact Hg|].
  assert (Hall : forall i, (i < List.length example_lap)%nat ->
            point_at (x_inner g) (y_inner g) i = c
            /\ point_at (x_outer g) (y_outer g) i = c).
  { intros i Hi. destruct (Hpts i Hi) as (Eo & Ei).
    rewrite TrackFacts.point_at_lap in Eo, Ei.
    rewrite (TrackFacts.normal_zero example_lap i
               (stationary_tangent example_lap c i Hc Hn Hi)) in Eo, Ei.
    assert (E : nth i example_lap (0, 0) = c) by (apply Hc, nth_In, Hi).
    rewrite E in Eo, Ei.
    destruct (TrackFacts.offset_none c (track_width / 2)) as (Ho' & Hi').
    rewrite Eo, Ei. split; assumption. }
  split; [exact Hall|].
  set (n := List.length example_lap) in *.
  assert (Hxr : forall z, In z (plot_x_ref g) -> z = fst c).
  { rewrite Ex. apply (all_nth_equal _ n); [apply length_map|].
    intros i Hi. now apply stationary_nth. }
  assert (Hyr : forall z, In z (plot_y_ref g) -> z = snd c).
  { rewrite Ey. apply (all_nth_equal _ n); [apply length_map|].
    intros i Hi. now apply stationary_nth. }
  assert (Hxi : forall z, In z (x_inner g) -> z = fst c).
  { apply (all_nth_equal _ n); [exact Lxi|]. intros i Hi.
    destruct (Hall i Hi) as (E & _). unfold point_at in E.
    rewrite <- E. reflexivity. }
  assert (Hyi : forall z, In z (y_inner g) -> z = snd c).
  { apply (all_nth_equal _ n); [exact Lyi|]. intros i Hi.
    destruct (Hall i Hi) as (E & _). unfold point_at in E.
    rewrite <- E. reflexivity. }
  assert (Hxo : forall z, In z (x_outer g) -> z = fst c).
  { apply (all_nth_equal _ n); [exact Lxo|]. intros i Hi.
    destruct (Hall i Hi) as (_ & E). unfold point_at in E.
    rewrite <- E. reflexivity. }
  assert (Hyo : forall z, In z (y_outer g) -> z = snd c).
  { apply (all_nth_equal _ n); [exact Lyo|]. intros i Hi.
    destruct (Hall i Hi) as (_ & E). unfold point_at in E.
    rewrite <- E. reflexivity. }
  destruct (build_track_bounds example_lap track_width g Hg)
    as (xr & xi & xo & Xr & Xi & Xo & yr & yi & yo & Yr & Yi & Yo
        & E1 & E2 & E3 & E4 & E5 & E6 & E7 & E8 & E9 & E10 & E11 & E12
        & -> & -> & -> & ->).
  rewrite (Hxr xr (proj1 (amin_lower _ _ E1))),
    (Hxi xi (proj1 (amin_lower _ _ E2))),
    (Hxo xo (proj1 (amin_lower _ _ E3))),
    (Hxr Xr (proj1 (amax_upper _ _ E4))),
    (Hxi Xi (proj1 (amax_upper _ _ E5))),
    (Hxo Xo (proj1 (amax_upper _ _ E6))),
    (Hyr yr (proj1 (amin_lower _ _ E7))),
    (Hyi yi (proj1 (amin_lower _ _ E8))),
    (Hyo yo (proj1 (amin_lower _ _ E9))),
    (Hyr Yr (proj1 (amax_upper _ _ E10))),
    (Hyi Yi (proj1 (amax_upper _ _ E11))),
    (Hyo Yo (proj1 (amax_upper _ _ E12))).
  repeat split; min_max_cases.
Qed.

Lemma stationary_lap_collapses_witness :
  exists g,
    build_track_from_example_lap parked_lap default_track_width = Ok g
    /\ x_min g = 7 /\ x_max g = 7 /\ y_min g = 3 /\ y_max g = 3.
Proof.
  destruct (stationary_lap_collapses parked_lap default_track_width (7, 3))
    as (g & Hg & _ & Hb).
  - intros p [<- | [<- | [<- | []]]]; reflexivity.
  - cbn. lia.
  - exists g. exact (conj Hg Hb).
Defined.

(** *** Resampling: the abscissas *)

Lemma linspace01_nth (num k : nat) :
  (2 <= num)%nat -> (k < num)%nat ->
  nth k (linspace01 num) 0 = INR k / INR (num - 1).
Proof.
  intros Hn Hk. destruct num as [|[|num]]; try lia.
  unfold linspace01. set (f := fun i => INR i / INR (S (S num) - 1)).
  rewrite (nth_indep _ 0 (f 0%nat)) by (rewrite length_map, length_seq; lia).
  rewrite (map_nth f), seq_nth by lia. reflexivity.
Qed.

Lemma linspace01_first (num : nat) :
  (1 <= num)%nat -> nth 0 (linspace01 num) 0 = 0.
Proof.
  intros Hn. destruct num as [|[|num]]; [lia | reflexivity |].
  rewrite linspace01_nth by lia. cbn [INR]. unfold Rdiv. ring.
Qed.

Lemma linspace01_last (num : nat) :
  (2 <= num)%nat -> nth (num - 1) (linspace01 num) 0 = 1.
Proof.
  intros Hn. rewrite linspace01_nth by lia. field.
  apply not_0_INR. lia.
Qed.

Lemma linspace01_bounds (num : nat) (t : R) :
  In t (linspace01 num) -> 0 <= t <= 1.
Proof.
  destruct num as [|[|num]]; cbn [linspace01].
  - intros [].
  - intros [<- | []]. lra.
  - intros Ht. apply in_map_iff in Ht. destruct Ht as (i & <- & Hi).
    apply in_seq in Hi.
    assert (Hd : 0 < INR (S (S num) - 1)) by (apply lt_0_INR; lia).
    assert (H0 : 0 <= INR i) by apply pos_INR.
    assert (H1 : INR i <= INR (S (S num) - 1)) by (apply le_INR; lia).
    split.
    + apply Rmult_le_pos; [exact H0 | apply Rlt_le, Rinv_0_lt_compat, Hd].
    + apply Rmult_le_reg_r with (INR (S (S num) - 1)); [exact Hd|].
      unfold Rdiv. rewrite Rmult_assoc, Rinv_l by lra. lra.
Qed.

Lemma linspace01_sorted (num : nat) :
  StronglySorted Rlt (linspace01 num).
Proof.
  destruct num as [|[|num]]; cbn [linspace01]; [constructor | repeat constructor|].
  set (d := INR (S (S num) - 1)).
  assert (Hd : 0 < d) by (apply lt_0_INR; lia).
  generalize (S (S num)). generalize 0%nat.
  intros a len. revert a. induction len as [|len IH]; intros a; cbn [seq map].
  - constructor.
  - constructor; [apply IH|].
    rewrite Forall_forall. intros t Ht.
    apply in_map_iff in Ht. destruct Ht as (i & <- & Hi). apply in_seq in Hi.
    unfold Rdiv. apply Rmult_lt_compat_r; [now apply Rinv_0_lt_compat|].
    apply lt_INR. lia.
Qed.

(** *** Resampling: the ordinates *)

Lemma interp_from_beyond (x : R) (xr : list R) : forall x0 f0 fr,
  List.length xr = List.length fr ->
  Forall (fun a => a <= x) xr ->
  interp_from x x0 f0 (combine xr fr) = nth (List.length fr) (f0 :: fr) 0.
Proof.
  induction xr as [|x1 xr IH]; intros x0 f0 [|f1 fr] Hlen Hall;
    try discriminate Hlen; [reflexivity|].
  cbn [combine interp_from]. apply Forall_cons_iff in Hall.
  destruct Hall as (H1 & Hall).
  destruct (Rlt_dec x x1); [lra|].
  rewrite (IH x1 f1 fr) by (cbn in Hlen; try lia; exact Hall).
  reflexivity.
Qed.

Lemma interp_from_at_start (x0 f0 : R) (xr fr : list R) :
  StronglySorted Rlt (x0 :: xr) ->
  interp_from x0 x0 f0 (combine xr fr) = f0.
Proof.
  intros Hs. destruct xr as [|x1 xr], fr as [|f1 fr]; try reflexivity.
  cbn [combine interp_from].
  apply StronglySorted_inv in Hs. destruct Hs as (_ & Hall).
  apply Forall_cons_iff in Hall. destruct Hall as (Hlt & _).
  destruct (Rlt_dec x0 x1); [|lra]. unfold Rdiv. ring.
Qed.

Lemma interp_from_at_sample (xr : list R) : forall x0 f0 fr j,
  List.length xr = List.length fr ->
  StronglySorted Rlt (x0 :: xr) ->
  (j < List.length xr)%nat ->
  interp_from (nth j xr 0) x0 f0 (combine xr fr) = nth j fr 0.
Proof.
  induction xr as [|x1 xr IH]; intros x0 f0 [|f1 fr] j Hlen Hs Hj;
    cbn in Hlen, Hj; try lia.
  cbn [combine interp_from].
  apply StronglySorted_inv in Hs. destruct Hs as (Hs & Hall).
  destruct j as [|j]; cbn [nth].
  - destruct (Rlt_dec x1 x1); [lra|]. now apply interp_from_at_start.
  - assert (Hgt : x1 < nth j xr 0).
    { apply StronglySorted_inv in Hs. destruct Hs as (_ & Hall').
      rewrite Forall_forall in Hall'. apply Hall', nth_In. lia. }
    destruct (Rlt_dec (nth j xr 0) x1); [lra|].
    apply IH; [lia | exact Hs | lia].
Qed.

(** The resampled points, one by one. *)
Lemma interpolate_points_nth (xs ys : list R) (interp_points : nat) :
  List.length xs = List.length ys -> (0 < List.length xs)%nat ->
  exists pts x0 xr f0 fr g0 gr,
    _interpolate_points xs ys interp_points = Ok pts
    /\ linspace01 (List.length xs) = x0 :: xr
    /\ xs = f0 :: fr /\ ys = g0 :: gr
    /\ List.length xr = List.length fr /\ List.length xr = List.length gr
    /\ List.length pts = interp_points
    /\ forall k, (k < interp_points)%nat ->
         let tk := nth k (linspace01 interp_points) 0 in
         nth k pts (0, 0)
         = (if Rle_dec tk x0 then f0 else interp_from tk x0 f0 (combine xr fr),
            if Rle_dec tk x0 then g0 else interp_from tk x0 g0 (combine xr gr)).
Proof.
  intros Hlen Hpos. unfold _interpolate_points.
  set (t_new := linspace01 interp_points).
  assert (Hnew : List.length t_new = interp_points)
    by apply TrackFacts.linspace01_length.
  destruct (TrackFacts.interp_ok t_new (linspace01 (List.length xs)) xs)
    as (x0 & f0 & xr & fr & Et & Ex & ->);
    [apply TrackFacts.linspace01_length | exact Hpos |].
  destruct (TrackFacts.interp_ok t_new (linspace01 (List.length xs)) ys)
    as (x0' & g0 & xr' & gr & Et' & Ey & ->);
    [rewrite TrackFacts.linspace01_length; exact Hlen | lia |].
  rewrite Et in Et'. injection Et' as <- <-.
  assert (Hxr : List.length xr = List.length fr).
  { assert (H := TrackFacts.linspace01_length (List.length xs)).
    rewrite Et in H. rewrite Ex in H. cbn in H. lia. }
  assert (Hgr : List.length xr = List.length gr).
  { rewrite Hxr. rewrite Ex, Ey in Hlen. cbn in Hlen. lia. }
  cbn [bind]. eexists. exists x0, xr, f0, fr, g0, gr.
  split; [reflexivity|]. split; [exact Et|].
  split; [exact Ex|]. split; [exact Ey|].
  split; [exact Hxr|]. split; [exact Hgr|].
  split; [rewrite length_combine, !length_map; lia|].
  intros k Hk. cbv zeta.
  set (Fx := fun x => if Rle_dec x x0 then f0
                      else interp_from x x0 f0 (combine xr fr)).
  set (Fy := fun x => if Rle_dec x x0 then g0
                      else interp_from x x0 g0 (combine xr gr)).
  rewrite combine_nth by now rewrite !length_map.
  rewrite (nth_indep (map Fx t_new) 0 (Fx 0)) by (rewrite length_map; lia).
  rewrite (nth_indep (map Fy t_new) 0 (Fy 0)) by (rewrite length_map; lia).
  rewrite !map_nth. reflexivity.
Qed.

Lemma linspace01_head (n : nat) (x0 : R) (xr : list R) :
  linspace01 n = x0 :: xr ->
  x0 = 0 /\ Forall (fun a => a <= 1) xr /\ StronglySorted Rlt (x0 :: xr).
Proof.
  intros E.
  assert (Hn : (1 <= n)%nat).
  { destruct n; [discriminate E | lia]. }
  assert (H0 := linspace01_first n Hn). rewrite E in H0. cbn in H0.
  split; [exact H0|]. split.
  - rewrite Forall_forall. intros a Ha.
    apply (linspace01_bounds n). rewrite E. now right.
  - rewrite <- E. apply linspace01_sorted.
Qed.

Lemma resample_first (xs ys : list R) (interp_points : nat) :
  List.length xs = List.length ys ->
  (0 < List.length xs)%nat ->
  (1 <= interp_points)%nat ->
  exists pts,
    _interpolate_points xs ys interp_points = Ok pts
    /\ nth 0 pts (0, 0) = point_at xs ys 0.
Proof.
  intros Hlen Hpos Hm.
  destruct (interpolate_points_nth xs ys interp_points Hlen Hpos)
    as (pts & x0 & xr & f0 & fr & g0 & gr & Hp & Et & Ex & Ey & Lf & Lg & _ & Hk).
  destruct (linspace01_head _ _ _ Et) as (H0 & _ & _).
  exists pts. split; [exact Hp|].
  rewrite (Hk 0%nat ltac:(lia)). cbv zeta.
  rewrite linspace01_first by lia.
  destruct (Rle_dec 0 x0); [|lra]. rewrite Ex, Ey. reflexivity.
Qed.

Lemma resample_last (xs ys : list R) (interp_points : nat) :
  List.length xs = List.length ys ->
  (0 < List.length xs)%nat ->
  (2 <= interp_points)%nat ->
  exists pts,
    _interpolate_points xs ys interp_points = Ok pts
    /\ nth (interp_points - 1) pts (0, 0)
       = point_at xs ys (List.length xs - 1).
Proof.
  intros Hlen Hpos Hm.
  destruct (interpolate_points_nth xs ys interp_points Hlen Hpos)
    as (pts & x0 & xr & f0 & fr & g0 & gr & Hp & Et & Ex & Ey & Lf & Lg & _ & Hk).
  destruct (linspace01_head _ _ _ Et) as (H0 & Hle & _).
  exists pts. split; [exact Hp|].
  rewrite (Hk (interp_points - 1)%nat ltac:(lia)). cbv zeta.
  rewrite linspace01_last by exact Hm.
  destruct (Rle_dec 1 x0); [lra|].
  rewrite !interp_from_beyond by assumption.
  unfold point_at. subst xs ys. cbn [List.length].
  replace (S (List.length fr) - 1)%nat with (List.length fr) by lia.
  replace (List.length gr) with (List.length fr) by lia.
  reflexivity.
Qed.

(** Resampling keeps the ends of a curve: the first resampled point is
    its first point and, for two points or more asked for, the last
    resampled point is its last point. *)
Theorem resample_keeps_ends (xs ys : list R) (interp_points : nat) :
  List.length xs = List.length ys ->
  (0 < List.length xs)%nat ->
  (2 <= interp_points)%nat ->
  exists pts,
    _interpolate_points xs ys interp_points = Ok pts
    /\ nth 0 pts (0, 0) = point_at xs ys 0
    /\ nth (interp_points - 1) pts (0, 0)
       = point_at xs ys (List.length xs - 1).
Proof.
  intros Hlen Hpos Hm.
  destruct (resample_first xs ys interp_points Hlen Hpos ltac:(lia))
    as (pts & Hp & Hfirst).
  destruct (resample_last xs ys interp_points Hlen Hpos Hm)
    as (pts' & Hp' & Hlast).
  rewrite Hp in Hp'. injection Hp' as <-.
  exists pts. exact (conj Hp (conj Hfirst Hlast)).
Qed.

Lemma resample_keeps_ends_witness :
  exists pts,
    _interpolate_points [0; 10; 20] [5; 6; 9] 4 = Ok pts
    /\ nth 0 pts (0, 0) = point_at [0; 10; 20] [5; 6; 9] 0
    /\ nth 3 pts (0, 0) = point_at [0; 10; 20] [5; 6; 9] 2.
Proof.
  exact (resample_keeps_ends [0; 10; 20] [5; 6; 9] 4 eq_refl
           ltac:(cbn; lia) ltac:(lia)).
Defined.

(** Resampling a curve of two points or more to as many points as it
    has gives the curve back. *)
Theorem resample_same_resolution (xs ys : list R) :
  List.length xs = List.length ys ->
  (2 <= List.length xs)%nat ->
  _interpolate_points xs ys (List.length xs) = Ok (combine xs ys).
Proof.
  intros Hlen Hn.
  destruct (interpolate_points_nth xs ys (List.length xs) Hlen ltac:(lia))
    as (pts & x0 & xr & f0 & fr & g0 & gr & Hp & Et & Ex & Ey & Lf & Lg & Lp & Hk).
  destruct (linspace01_head _ _ _ Et) as (H0 & _ & Hs).
  rewrite Hp. f_equal.
  apply (nth_ext _ _ (0, 0) (0, 0)).
  { rewrite length_combine. lia. }
  intros k Hlt. rewrite Lp in Hlt. rewrite (Hk k Hlt). cbv zeta.
  rewrite combine_nth by exact Hlen.
  rewrite Et. destruct k as [|k]; cbn [nth].
  - destruct (Rle_dec x0 x0); [|lra]. now rewrite Ex, Ey.
  - assert (Hkr : (k < List.length xr)%nat).
    { rewrite Ex in Hlt. cbn in Hlt. lia. }
    assert (Hgt : x0 < nth k xr 0).
    { apply StronglySorted_inv in Hs. destruct Hs as (_ & Hall).
      rewrite Forall_forall in Hall. apply Hall, nth_In, Hkr. }
    destruct (Rle_dec (nth k xr 0) x0); [lra|].
    rewrite !interp_from_at_sample by assumption.
    now rewrite Ex, Ey.
Qed.

Lemma resample_same_resolution_witness :
  _interpolate_points [0; 10; 20] [5; 6; 9] 3
  = Ok [(0, 5); (10, 6); (20, 9)].
Proof.
  exact (resample_same_resolution [0; 10; 20] [5; 6; 9] eq_refl
           ltac:(cbn; lia)).
Defined.

(** The ends of what the resampler takes: without a point, or with
    abscissas and ordinates of different numbers, it raises
    [ValueError]; a single point is repeated as often as points are
    asked for. *)
Theorem resample_edge_cases (xs ys : list R) (interp_points : nat) :
  (xs = [] -> _interpolate_points xs ys interp_points = Raise ValueError)
  /\ (List.length xs <> List.length ys ->
      _interpolate_points xs ys interp_points = Raise ValueError)
  /\ (forall a b, xs = [a] -> ys = [b] ->
      _interpolate_points xs ys interp_points
      = Ok (repeat (a, b) interp_points)).
Proof.
  split; [|split].
  - intros ->. unfold _interpolate_points, interp. cbn.
    reflexivity.
  - intros Hne. unfold _interpolate_points.
    destruct xs as [|f0 fr].
    + reflexivity.
    + destruct (TrackFacts.interp_ok (linspace01 interp_points)
                  (linspace01 (List.length (f0 :: fr))) (f0 :: fr))
        as (x0 & f0' & xr & fr' & _ & _ & ->);
        [apply TrackFacts.linspace01_length | cbn; lia |].
      cbn [bind]. unfold interp.
      rewrite TrackFacts.linspace01_length.
      destruct (Nat.eqb_spec (List.length (f0 :: fr)) (List.length ys));
        [contradiction | reflexivity].
  - intros a b -> ->.
    destruct (interpolate_points_nth [a] [b] interp_points eq_refl
                ltac:(cbn; lia))
      as (pts & x0 & xr & f0 & fr & g0 & gr & Hp & Et & Ex & Ey & Lf & Lg
          & Lp & Hk).
    injection Ex as <- <-. injection Ey as <- <-.
    destruct xr; [|discriminate Lf].
    rewrite Hp. f_equal.
    apply (nth_ext _ _ (0, 0) (a, b)).
    { now rewrite repeat_length. }
    intros k Hlt. rewrite Lp in Hlt. rewrite (Hk k Hlt). cbv zeta.
    rewrite nth_repeat. cbn [combine interp_from].
    now destruct (Rle_dec _ _).
Qed.

Lemma resample_edge_cases_witness :
  _interpolate_points [] [] 5 = Raise ValueError
  /\ _interpolate_points [1; 2] [3] 5 = Raise ValueError
  /\ _interpolate_points [7] [3] 5 = Ok (repeat (7, 3) 5).
Proof.
  destruct (resample_edge_cases [] [] 5) as (H1 & _).
  destruct (resample_edge_cases [1; 2] [3] 5) as (_ & H2 & _).
  destruct (resample_edge_cases [7] [3] 5) as (_ & _ & H3).
  exact (conj (H1 eq_refl)
           (conj (H2 ltac:(cbn; lia)) (H3 7 3 eq_refl eq_refl))).
Defined.

(** The start/finish line runs between the first points of the two
    resampled boundaries: on a lap of two samples or more it is centred
    on the first sample of the lap and, where the first tangent is not
    zero, as long as the track is wide. *)
Theorem start_finish_line_centred
  (example_lap : list (R * R)) (track_width : R) (interp_points : nat) :
  (2 <= List.length example_lap)%nat ->
  0 <= track_width ->
  (1 <= interp_points)%nat ->
  exists inner outer,
    boundaries example_lap track_width interp_points = Ok (inner, outer)
    /\ midpoint (nth 0 inner (0, 0)) (nth 0 outer (0, 0))
       = nth 0 example_lap (0, 0)
    /\ (tangent_at example_lap 0 <> (0, 0) ->
        distance (nth 0 inner (0, 0)) (nth 0 outer (0, 0)) = track_width).
Proof.
  intros Hn Hw Hm.
  destruct (TrackFacts.build_track_ok example_lap track_width Hn)
    as (g & Hg & _ & _ & Lxi & Lyi & Lxo & Lyo & Hpts).
  destruct (TrackFacts.boundaries_ok example_lap track_width interp_points g
              Hg Lxi Lyi Lxo Lyo ltac:(lia))
    as (inner & outer & Hb & Hin & Hout).
  destruct (resample_first (x_inner g) (y_inner g) interp_points)
    as (inner' & Hin' & Ei); [lia | lia | exact Hm |].
  destruct (resample_first (x_outer g) (y_outer g) interp_points)
    as (outer' & Hout' & Eo); [lia | lia | exact Hm |].
  rewrite Hin in Hin'. injection Hin' as <-.
  rewrite Hout in Hout'. injection Hout' as <-.
  exists inner, outer. split; [exact Hb|].
  rewrite Ei, Eo.
  destruct (Hpts 0%nat ltac:(lia)) as (Po & Pi).
  rewrite TrackFacts.point_at_lap in Po, Pi. rewrite Po, Pi.
  destruct (mirrored_offsets (nth 0 example_lap (0, 0))
              (normal_at example_lap 0) (track_width / 2)) as (Hmid & Hdist).
  split; [exact Hmid|]. intros Ht.
  rewrite Hdist; [field | lra | now apply TrackFacts.normal_unit].
Qed.

Lemma start_finish_line_centred_witness :
  exists inner outer,
    boundaries straight_lap default_track_width default_interp_points
    = Ok (inner, outer)
    /\ midpoint (nth 0 inner (0, 0)) (nth 0 outer (0, 0))
       = nth 0 straight_lap (0, 0).
Proof.
  destruct (start_finish_line_centred straight_lap default_track_width
              default_interp_points ltac:(cbn; lia)
              ltac:(unfold default_track_width; lra)
              ltac:(unfold default_interp_points; lia))
    as (inner & outer & Hb & Hmid & _).
  exists inner, outer. exact (conj Hb Hmid).
Defined.

End BoundaryFacts.
